(** * The concurrency core of the RPC runtime: dual ref-counting, party
      slot allocation, wakers and call forwarding.

    The development follows the sources:
    - [src/core/util/dual_ref_counted.h]  (module [DualRefCounted]),
    - [test/core/promise/party_test.cc]   (modules [PartySync], [Party]),
    - [src/core/call/call_spine.cc]       (module [CallSpine]),
    - [src/core/lib/event_engine/posix_engine/grpc_polled_fd_posix.h]
      (module [GrpcPolledFdFactoryPosix]),
    - [src/core/lib/event_engine/posix_engine/traced_buffer_list.h]
      (module [TracedBufferList]).

    Machine integers are modelled as [Z] with the wrap-around of their
    C++ type written out. *)

From Stdlib Require Import ZArith List Lia Bool Sorted ListSet.
Import ListNotations.
Local Open Scope Z_scope.

(** ** Fixed-width unsigned integers *)

Definition u32 (x : Z) : Z := x mod 2 ^ 32.
Definition u64 (x : Z) : Z := x mod 2 ^ 64.

Definition is_u32 (x : Z) : Prop := 0 <= x < 2 ^ 32.
Definition is_u64 (x : Z) : Prop := 0 <= x < 2 ^ 64.

Definition UINT32_MAX : Z := 2 ^ 32 - 1.

(** ** dual_ref_counted.h *)

Module DualRefCounted.

(** [static uint64_t MakeRefPair(uint32_t strong, uint32_t weak)]:
    the arguments are converted to [uint32_t] at the call (so that
    [MakeRefPair(-1, 1)] is well defined), the strong half is widened and
    shifted, the weak half is added. *)
Definition MakeRefPair (strong weak : Z) : Z :=
  u64 (u64 (Z.shiftl (u32 strong) 32) + u32 weak).

(** [static uint32_t GetStrongRefs(uint64_t ref_pair)] *)
Definition GetStrongRefs (ref_pair : Z) : Z :=
  u32 (Z.shiftr ref_pair 32).

(** [static uint32_t GetWeakRefs(uint64_t ref_pair)] *)
Definition GetWeakRefs (ref_pair : Z) : Z :=
  u32 (Z.land ref_pair 0xffffffff).

(** [std::atomic<uint64_t>::fetch_add] and [fetch_sub]: the value held
    before, and the value stored. *)
Definition fetch_add (refs x : Z) : Z * Z := (refs, u64 (refs + x)).
Definition fetch_sub (refs x : Z) : Z * Z := (refs, u64 (refs - x)).

(** What an operation makes observable besides the counters: the call of
    the virtual [Orphaned()] and the call of [unref_behavior_]. *)
Inductive Event : Type :=
| Orphaned
| Destroyed.

Definition Event_eqb (a b : Event) : bool :=
  match a, b with
  | Orphaned, Orphaned | Destroyed, Destroyed => true
  | _, _ => false
  end.

(** The constructor: [refs_(MakeRefPair(initial_refcount, 0))], with
    [int32_t initial_refcount = 1]. *)
Definition is_int32 (x : Z) : Prop := - 2 ^ 31 <= x < 2 ^ 31.

Definition DualRefCounted (initial_refcount : Z) : Z :=
  MakeRefPair initial_refcount 0.

Definition default_initial_refcount : Z := 1.

(** *** Release build ([NDEBUG] defined): no check is compiled in. *)

(** [IncrementRefCount()], the body of [Ref()]. *)
Definition IncrementRefCount (refs : Z) : Z :=
  snd (fetch_add refs (MakeRefPair 1 0)).

(** [IncrementWeakRefCount()], the body of [WeakRef()]. *)
Definition IncrementWeakRefCount (refs : Z) : Z :=
  snd (fetch_add refs (MakeRefPair 0 1)).

(** [WeakUnref()]. *)
Definition WeakUnref (refs : Z) : Z * list Event :=
  let '(prev_ref_pair, refs') := fetch_sub refs (MakeRefPair 0 1) in
  (refs', if prev_ref_pair =? MakeRefPair 0 1 then [Destroyed] else []).

(** The first half of [Unref()], up to and including the call of
    [Orphaned()]: "Convert strong ref to weak ref." *)
Definition Unref_convert (refs : Z) : Z * list Event :=
  let '(prev_ref_pair, refs') := fetch_add refs (MakeRefPair (-1) 1) in
  let strong_refs := GetStrongRefs prev_ref_pair in
  (refs', if strong_refs =? 1 then [Orphaned] else []).

(** [Unref()]: the conversion, then "Now drop the weak ref." *)
Definition Unref (refs : Z) : Z * list Event :=
  let '(refs1, ev1) := Unref_convert refs in
  let '(refs2, ev2) := WeakUnref refs1 in
  (refs2, ev1 ++ ev2).

(** [RefIfNonZero()].  The loop reads [refs_] once and then only through
    failed [compare_exchange_weak] calls, each of which reloads
    [prev_ref_pair]; [reloads] lists the values these failed attempts
    reload (the same value for a spurious failure, another one when a
    different thread has written in between).  When the list is used up
    the next attempt succeeds.  The result is whether a handle is
    returned, and the value of [refs_] on return. *)
Fixpoint RefIfNonZero_loop (reloads : list Z) (prev_ref_pair : Z)
  : bool * Z :=
  let strong_refs := GetStrongRefs prev_ref_pair in
  if strong_refs =? 0 then (false, prev_ref_pair)
  else
    match reloads with
    | [] => (true, u64 (prev_ref_pair + MakeRefPair 1 0))
    | reloaded :: rest => RefIfNonZero_loop rest reloaded
    end.

Definition RefIfNonZero (reloads : list Z) (refs : Z) : bool * Z :=
  RefIfNonZero_loop reloads refs.

(** *** Debug build: the [CHECK_*] macros abort the process. *)

Definition CHECK (cond : bool) : option unit :=
  if cond then Some tt else None.

Inductive Op : Type :=
| OpRef
| OpUnref
| OpWeakRef
| OpWeakUnref.

(** One operation in a release build. *)
Definition step (op : Op) (refs : Z) : Z * list Event :=
  match op with
  | OpRef => (IncrementRefCount refs, [])
  | OpWeakRef => (IncrementWeakRefCount refs, [])
  | OpUnref => Unref refs
  | OpWeakUnref => WeakUnref refs
  end.

(** The conditions the debug build checks on the value read by each
    operation: [CHECK_NE(strong_refs, 0u)] in [IncrementRefCount],
    [if (strong_refs == 0) CHECK_NE(weak_refs, 0u)] in
    [IncrementWeakRefCount], [CHECK_GT(strong_refs, 0u)] in [Unref] and
    [CHECK_GT(weak_refs, 0u)] in [WeakUnref]. *)
Definition WeakUnref_check (prev_ref_pair : Z) : bool :=
  0 <? GetWeakRefs prev_ref_pair.

Definition Unref_check (prev_ref_pair : Z) : bool :=
  0 <? GetStrongRefs prev_ref_pair.

Definition checks (op : Op) (refs : Z) : bool :=
  match op with
  | OpRef => negb (GetStrongRefs refs =? 0)
  | OpWeakRef =>
      if GetStrongRefs refs =? 0 then negb (GetWeakRefs refs =? 0) else true
  | OpUnref =>
      Unref_check refs && WeakUnref_check (fst (Unref_convert refs))
  | OpWeakUnref => WeakUnref_check refs
  end.

(** One operation in a debug build. *)
Definition step_debug (op : Op) (refs : Z) : option (Z * list Event) :=
  match CHECK (checks op refs) with
  | Some _ => Some (step op refs)
  | None => None
  end.

(** A sequence of operations on one object, release build. *)
Fixpoint run (ops : list Op) (refs : Z) : Z * list Event :=
  match ops with
  | [] => (refs, [])
  | op :: rest =>
      let '(refs1, ev1) := step op refs in
      let '(refs2, ev2) := run rest refs1 in
      (refs2, ev1 ++ ev2)
  end.

(** The same in a debug build: [None] when a check fails. *)
Fixpoint run_debug (ops : list Op) (refs : Z) : option (Z * list Event) :=
  match ops with
  | [] => Some (refs, [])
  | op :: rest =>
      match step_debug op refs with
      | None => None
      | Some (refs1, ev1) =>
          match run_debug rest refs1 with
          | None => None
          | Some (refs2, ev2) => Some (refs2, ev1 ++ ev2)
          end
      end
  end.

Definition Op_eqb (a b : Op) : bool :=
  match a, b with
  | OpRef, OpRef | OpUnref, OpUnref
  | OpWeakRef, OpWeakRef | OpWeakUnref, OpWeakUnref => true
  | _, _ => false
  end.

Definition count (op : Op) (ops : list Op) : Z :=
  Z.of_nat (length (filter (Op_eqb op) ops)).

Definition count_event (e : Event) (evs : list Event) : Z :=
  Z.of_nat (length (filter (Event_eqb e) evs)).

(** Every increment has its decrement: the initial strong ref and every
    [Ref] are given back by an [Unref], every [WeakRef] by a
    [WeakUnref]. *)
Definition matched (ops : list Op) : Prop :=
  count OpUnref ops = count OpRef ops + 1 /\
  count OpWeakUnref ops = count OpWeakRef ops.

(** [Orphaned] occurs in the log, and before any [Destroyed]. *)
Definition orphaned_before_destroyed (evs : list Event) : bool :=
  match evs with
  | [] => false
  | Orphaned :: _ => true
  | Destroyed :: _ => false
  end.

(** The net change a sequence asks of the strong and of the weak count. *)
Definition net_strong (ops : list Op) : Z :=
  count OpRef ops - count OpUnref ops.
Definition net_weak (ops : list Op) : Z :=
  count OpWeakRef ops - count OpWeakUnref ops.

(** What one checked operation does to the pair of halves. *)
Definition step_debug_result (op : Op) (s w refs1 : Z) (ev1 : list Event)
  : Prop :=
  match op with
  | OpRef =>
      1 <= s /\ ev1 = [] /\
      refs1 = (if s <? UINT32_MAX then (s + 1) * 2 ^ 32 + w else w)
  | OpWeakRef =>
      (1 <= s \/ 1 <= w) /\ ev1 = [] /\
      refs1 = (if w <? UINT32_MAX then s * 2 ^ 32 + (w + 1)
               else if s <? UINT32_MAX then (s + 1) * 2 ^ 32 + 0 else 0)
  | OpUnref =>
      1 <= s /\ w < UINT32_MAX /\ refs1 = (s - 1) * 2 ^ 32 + w /\
      ev1 = (if s =? 1 then [Orphaned] else []) ++
            (if (s =? 1) && (w =? 0) then [Destroyed] else [])
  | OpWeakUnref =>
      1 <= w /\ refs1 = s * 2 ^ 32 + (w - 1) /\
      ev1 = (if (s =? 0) && (w =? 1) then [Destroyed] else [])
  end.

(** [WeakRefIfNonZero()]: the loop of [RefIfNonZero()], giving up only
    when both counts are zero and adding [MakeRefPair(0, 1)].  [reloads]
    is as for [RefIfNonZero]. *)
Fixpoint WeakRefIfNonZero_loop (reloads : list Z) (prev_ref_pair : Z)
  : bool * Z :=
  let strong_refs := GetStrongRefs prev_ref_pair in
  let weak_refs := GetWeakRefs prev_ref_pair in
  if (strong_refs =? 0) && (weak_refs =? 0) then (false, prev_ref_pair)
  else
    match reloads with
    | [] => (true, u64 (prev_ref_pair + MakeRefPair 0 1))
    | reloaded :: rest => WeakRefIfNonZero_loop rest reloaded
    end.

Definition WeakRefIfNonZero (reloads : list Z) (refs : Z) : bool * Z :=
  WeakRefIfNonZero_loop reloads refs.

End DualRefCounted.

(** ** The slot table of a party (party.h, exercised by party_test.cc) *)

Module PartySync.

(** The fields of the party state word. *)
Record State : Type := {
  locked : bool;
  wakeups : Z;
  allocated : Z;
  refs : Z
}.

(** [TypeParam sync(1)]: a table with an initial ref count and no
    participant. *)
Definition PartySync (initial_refs : Z) : State :=
  {| locked := false; wakeups := 0; allocated := 0; refs := initial_refs |}.

(** Modelled from the spec: the reservation made by
    [AddParticipantsAndRef], whose source (party.h) is not among the
    files.  "Atomically reserve n free slots"; "batch of N consecutive
    free slots; for N>1 indices must be strictly increasing": the table
    is scanned upwards from [slot] over [scan] slots and the first [n]
    slots whose allocated bit is clear are taken; there is no reservation
    when fewer than [n] are free. *)
Fixpoint reserve (scan : nat) (slot : Z) (allocated : Z) (n : nat)
  {struct scan} : option (list Z) :=
  match n with
  | O => Some []
  | S n' =>
      match scan with
      | O => None
      | S scan' =>
          if Z.testbit allocated slot
          then reserve scan' (slot + 1) allocated n
          else option_map (cons slot) (reserve scan' (slot + 1) allocated n')
      end
  end.

(** The bit mask of a list of slots. *)
Definition slots_mask (slots : list Z) : Z :=
  fold_right (fun slot mask => Z.lor (Z.shiftl 1 slot) mask) 0 slots.

(** Modelled from the spec: [AddParticipantsAndRef(n, assign_fn)] of
    party.h, which is not among the files.  "Atomically reserve n free
    slots, invoke assign_fn(slot_indices[]) while holding the reservation,
    increment the refcount by one, set the wakeup bits for those slots, and
    return whether the current thread must now drive RunParty (i.e., the
    lock transitioned from unlocked to locked)"; it "fails only if no
    slots are free".  [kMaxParticipants] is the size of the table, a
    constant of party.h; [user] is the state [assign_fn] writes to. *)
Definition AddParticipantsAndRef {A : Type} (kMaxParticipants : nat)
  (n : nat) (assign_fn : list Z -> A -> A) (st : State) (user : A)
  : option (bool * State * A) :=
  match reserve kMaxParticipants 0 (allocated st) n with
  | None => None
  | Some slots =>
      let mask := slots_mask slots in
      let user' := assign_fn slots user in
      Some (negb (locked st),
            {| locked := true;
               wakeups := Z.lor (wakeups st) mask;
               allocated := Z.lor (allocated st) mask;
               refs := refs st + 1 |},
            user')
  end.

End PartySync.

(** ** Parties and wakers (party.h, activity.h, exercised by
       party_test.cc) *)

Module Party.

(** Modelled from the spec: the outer party object, whose source
    (party.h) is not among the files.  It carries "a DualRefCount" and is
    "created with strong=1, weak=0, no participants"; "Orphan (strong->0)
    cancels all live participants and prevents new spawns";
    [current_generation] is "the party's current generation". *)
Record Party : Type := {
  refs : Z;
  orphaned : bool;
  wakeup_mask : Z;
  current_generation : Z
}.

Definition MakeParty : Party :=
  {| refs := DualRefCounted.DualRefCounted 1;
     orphaned := false;
     wakeup_mask := 0;
     current_generation := 0 |}.

(** Modelled from the spec: a waker, whose source (activity.h) is not
    among the files: "a (Party-weak-ref, slot-id, generation) triple",
    "owning (holds a strong ref on the Party)" or "non-owning (holds a
    weak ref)".  One party is modelled, so the reference is either held
    or not; a default-constructed [Waker] holds none. *)
Record Waker : Type := {
  party : bool;
  slot : Z;
  generation : Z;
  owning : bool
}.

Definition Waker_default : Waker :=
  {| party := false; slot := 0; generation := 0; owning := false |}.

(** "The generation has advanced past it." *)
Definition generation_advanced (w : Waker) (p : Party) : bool :=
  generation w <? current_generation p.

(** Modelled from the spec: [Waker::is_unwakeable()] in the words of the
    data model: "returns true iff the Party is orphaned or the generation
    has advanced past it". *)
Definition is_unwakeable_spec (w : Waker) (p : Party) : bool :=
  orphaned p || generation_advanced w p.

(** Modelled from the spec: [Waker::is_unwakeable()] in the words of the
    scenario the test checks, "the waker reports is_unwakeable==false
    before wake, true after wake", and of "calling Wakeup on a non-owning
    waker whose Party has been orphaned is a no-op and transitions the
    waker to unwakeable": the place of "the Party is orphaned" is taken
    by "the waker has given back its reference"; "the generation has
    advanced past it" stands. *)
Definition is_unwakeable (w : Waker) (p : Party) : bool :=
  negb (party w) || generation_advanced w p.

(** Modelled from the spec: [MakeNonOwningWaker()] and
    [MakeOwningWaker()], called from the poll of the participant in
    [slot]: "a Waker bound to the currently-executing slot and the party's
    current generation". *)
Definition MakeNonOwningWaker (slot : Z) (p : Party) : Waker * Party :=
  ({| party := true; slot := slot; generation := current_generation p;
      owning := false |},
   {| refs := DualRefCounted.IncrementWeakRefCount (refs p);
      orphaned := orphaned p;
      wakeup_mask := wakeup_mask p;
      current_generation := current_generation p |}).

Definition MakeOwningWaker (slot : Z) (p : Party) : Waker * Party :=
  ({| party := true; slot := slot; generation := current_generation p;
      owning := true |},
   {| refs := DualRefCounted.IncrementRefCount (refs p);
      orphaned := orphaned p;
      wakeup_mask := wakeup_mask p;
      current_generation := current_generation p |}).

Definition has_event (e : DualRefCounted.Event)
  (evs : list DualRefCounted.Event) : bool :=
  existsb (DualRefCounted.Event_eqb e) evs.

(** [party.reset()] on a [RefCountedPtr<Party>]: one [Unref()] of the
    dual ref count; [Orphaned()] cancels the participants, so that no
    wakeup stays pending.  The generation is left alone: the test finds
    the waker still wakeable afterwards. *)
Definition Unref (p : Party) : Party :=
  let '(refs', ev) := DualRefCounted.Unref (refs p) in
  if has_event DualRefCounted.Orphaned ev
  then {| refs := refs'; orphaned := true; wakeup_mask := 0;
          current_generation := current_generation p |}
  else {| refs := refs'; orphaned := orphaned p;
          wakeup_mask := wakeup_mask p;
          current_generation := current_generation p |}.

(** Modelled from the spec: [Waker::Wakeup()].  It "transitions the
    waker to unwakeable": the waker gives back the reference it held.  A
    wakeup is posted for the slot unless the party is orphaned ("a no-op")
    or the waker is of a prior generation ("silently dropped"). *)
Definition Wakeup (w : Waker) (p : Party) : Waker * Party :=
  if party w then
    let mask :=
      if orphaned p || generation_advanced w p then wakeup_mask p
      else Z.lor (wakeup_mask p) (Z.shiftl 1 (slot w)) in
    let p1 := {| refs := refs p; orphaned := orphaned p;
                 wakeup_mask := mask;
                 current_generation := current_generation p |} in
    ({| party := false; slot := slot w; generation := generation w;
        owning := owning w |},
     if owning w then Unref p1
     else {| refs := fst (DualRefCounted.WeakUnref (refs p1));
             orphaned := orphaned p1;
             wakeup_mask := wakeup_mask p1;
             current_generation := current_generation p1 |})
  else (w, p).

(** [PartyTest.CanWakeupWithNonOwningWakerAfterOrphaning], with
    [is_unwakeable] as it is called there: the party after
    [party.reset()], the party after [waker.Wakeup()], and the outcome of
    the two expectations, [EXPECT_FALSE(waker.is_unwakeable())] before the
    wakeup and [EXPECT_TRUE(waker.is_unwakeable())] after it. *)
Record Observed : Type := {
  party_after_reset : Party;
  party_after_wakeup : Party;
  expect_false_before_wakeup : bool;
  expect_true_after_wakeup : bool
}.

Definition EXPECT_FALSE (b : bool) : bool := negb b.
Definition EXPECT_TRUE (b : bool) : bool := b.

Definition CanWakeupWithNonOwningWakerAfterOrphaning
  (is_unwakeable : Waker -> Party -> bool) : Observed :=
  let party := MakeParty in
  let waker := Waker_default in
  (* the participant spawned in slot 0 is polled once and sets the waker *)
  let '(waker, party) := MakeNonOwningWaker 0 party in
  let party := Unref party in
  let before := EXPECT_FALSE (is_unwakeable waker party) in
  let '(waker', party') := Wakeup waker party in
  {| party_after_reset := party;
     party_after_wakeup := party';
     expect_false_before_wakeup := before;
     expect_true_after_wakeup := EXPECT_TRUE (is_unwakeable waker' party') |}.

End Party.

(** ** call_spine.cc *)

Module CallSpine.

Section Forwarding.

(** [ServerMetadataHandle] and [MessageHandle]: what they carry. *)
Variable ServerMetadata : Type.
Variable Message : Type.

(** The calls [ForwardCall] makes on its two handles, and the call of
    the observer. *)
Inductive Action : Type :=
| Handler_AddChildCall
| Handler_SpawnPushServerInitialMetadata (md : ServerMetadata)
| Handler_SpawnPushMessage (msg : Message)
| Handler_SpawnPushServerTrailingMetadata (md : ServerMetadata)
| Initiator_SpawnPushMessage (msg : Message)
| Initiator_SpawnFinishSends
| Initiator_Cancel
| Call_on_server_trailing_metadata_from_initiator (md : ServerMetadata).

(** [StatusFlag]; [Success{}] is [true]. *)
Definition StatusFlag : Type := bool.
Definition Success : StatusFlag := true.
Definition Failure : StatusFlag := false.

(** [ValueOrFailure<T>]. *)
Inductive ValueOrFailure (T : Type) : Type :=
| Value (v : T)
| Failed.
Arguments Value {T} v.
Arguments Failed {T}.

(** What one side of the call delivers when it is pulled: a message
    stream is the messages it yields and whether it then ends normally. *)
Record Stream : Type := {
  messages : list Message;
  ends_ok : StatusFlag
}.

(** What the initiator delivers: the outcome of
    [PullServerInitialMetadata()], the server's messages, and the outcome
    of [PullServerTrailingMetadata()], which may depend on whether the
    call has been cancelled. *)
Record Initiator : Type := {
  server_initial_metadata : ValueOrFailure (option ServerMetadata);
  server_messages : Stream;
  server_trailing_metadata : bool -> ServerMetadata
}.

(** What a participant has done so far. *)
Record Activity : Type := {
  cancelled : bool;
  trace : list Action
}.

(** A promise that has resolved: its result and what it did. *)
Definition Promise (T : Type) : Type := Activity -> T * Activity.

Definition Immediate {T : Type} (v : T) : Promise T := fun a => (v, a).

Definition act (x : Action) : Promise unit :=
  fun a => (tt, {| cancelled := cancelled a; trace := trace a ++ [x] |}).

(** Modelled from the spec: [Seq] of seq.h, which is not among the
    files: run the first promise, pass its result to the next. *)
Definition Seq {T U : Type} (p : Promise T) (f : T -> Promise U)
  : Promise U :=
  fun a => let '(v, a1) := p a in f v a1.

(** Modelled from the spec: [TrySeq] of try_seq.h, which is not among
    the files: as [Seq], but a failure of the first promise ends the
    sequence with that failure. *)
Definition TrySeq {T : Type} (p : Promise (ValueOrFailure T))
  (f : T -> Promise StatusFlag) : Promise StatusFlag :=
  fun a =>
    let '(r, a1) := p a in
    match r with
    | Value v => f v a1
    | Failed => (Failure, a1)
    end.

(** Modelled from the spec: [If] of if.h, which is not among the files. *)
Definition If {T : Type} (cond : bool)
  (if_true if_false : unit -> Promise T) : Promise T :=
  if cond then if_true tt else if_false tt.

(** Modelled from the spec: [ForEach] of for_each.h, which is not among
    the files: the action is run on each message of the stream in order;
    the result is the first failure of the action, else how the stream
    ended. *)
Fixpoint ForEach_messages (msgs : list Message) (ends_ok : StatusFlag)
  (action : Message -> Promise StatusFlag) : Promise StatusFlag :=
  match msgs with
  | [] => Immediate ends_ok
  | msg :: rest =>
      fun a =>
        let '(ok, a1) := action msg a in
        if ok then ForEach_messages rest ends_ok action a1
        else (Failure, a1)
  end.

Definition ForEach (s : Stream) (action : Message -> Promise StatusFlag)
  : Promise StatusFlag :=
  ForEach_messages (messages s) (ends_ok s) action.

(** Modelled from the spec: [CallInitiator::CancelIfFails] of
    call_spine.h, which is not among the files: "any failure on the
    initiator side cancels the initiator activity". *)
Definition CancelIfFails (p : Promise StatusFlag) : Promise StatusFlag :=
  fun a =>
    let '(ok, a1) := p a in
    if ok then (ok, a1)
    else (ok, {| cancelled := true; trace := trace a1 ++ [Initiator_Cancel] |}).

(** The methods of the two handles. *)
Definition PullServerInitialMetadata (call_initiator : Initiator)
  : Promise (ValueOrFailure (option ServerMetadata)) :=
  Immediate (server_initial_metadata call_initiator).

Definition PullServerTrailingMetadata (call_initiator : Initiator)
  : Promise ServerMetadata :=
  fun a => (server_trailing_metadata call_initiator (cancelled a), a).

Definition MessagesFrom (s : Stream) : Stream := s.

(** The participant ["read_messages"], spawned on the handler. *)
Definition read_messages (call_handler : Stream) : Promise unit :=
  Seq
    (ForEach (MessagesFrom call_handler)
       (fun msg =>
          Seq (act (Initiator_SpawnPushMessage msg))
              (fun _ => Immediate Success)))
    (fun _ => act Initiator_SpawnFinishSends).

(** The participant ["read_the_things"], spawned on the initiator.  The
    observer takes the metadata by reference: it is given the metadata
    pulled, and what it leaves is what is pushed. *)
Definition read_the_things (call_initiator : Initiator)
  (on_server_trailing_metadata_from_initiator
     : ServerMetadata -> ServerMetadata)
  : Promise unit :=
  Seq
    (CancelIfFails
       (TrySeq
          (PullServerInitialMetadata call_initiator)
          (fun md =>
             let has_md :=
               match md with Some _ => true | None => false end in
             If has_md
               (fun _ =>
                  match md with
                  | Some md' =>
                      Seq (act (Handler_SpawnPushServerInitialMetadata md'))
                        (fun _ =>
                           ForEach
                             (MessagesFrom (server_messages call_initiator))
                             (fun msg =>
                                Seq (act (Handler_SpawnPushMessage msg))
                                    (fun _ => Immediate Success)))
                  | None => Immediate Success
                  end)
               (fun _ => Immediate Success))))
    (fun _ =>
       Seq (PullServerTrailingMetadata call_initiator)
         (fun md =>
            Seq (act (Call_on_server_trailing_metadata_from_initiator md))
              (fun _ =>
                 act (Handler_SpawnPushServerTrailingMetadata
                        (on_server_trailing_metadata_from_initiator md))))).

Definition idle : Activity := {| cancelled := false; trace := [] |}.

(** [ForwardCall]: what it does itself, and what each of the two
    participants it spawns does when run to its end. *)
Record Forwarded : Type := {
  forward_call : list Action;
  handler_participant : list Action;
  initiator_participant : list Action
}.

Definition ForwardCall (call_handler : Stream) (call_initiator : Initiator)
  (on_server_trailing_metadata_from_initiator
     : ServerMetadata -> ServerMetadata)
  : Forwarded :=
  {| forward_call := [Handler_AddChildCall];
     handler_participant := trace (snd (read_messages call_handler idle));
     initiator_participant :=
       trace (snd (read_the_things call_initiator
                     on_server_trailing_metadata_from_initiator idle)) |}.

(** The pushes to the handler, in the order they are made. *)
Definition is_handler_push (x : Action) : bool :=
  match x with
  | Handler_SpawnPushServerInitialMetadata _
  | Handler_SpawnPushMessage _
  | Handler_SpawnPushServerTrailingMetadata _ => true
  | _ => false
  end.

Definition handler_pushes (t : list Action) : list Action :=
  filter is_handler_push t.

Definition is_observer_call (x : Action) : bool :=
  match x with
  | Call_on_server_trailing_metadata_from_initiator _ => true
  | _ => false
  end.

Definition is_message_push (x : Action) : bool :=
  match x with
  | Handler_SpawnPushMessage _ => true
  | _ => false
  end.

Definition is_trailing_push (x : Action) : bool :=
  match x with
  | Handler_SpawnPushServerTrailingMetadata _ => true
  | _ => false
  end.

Definition is_cancel (x : Action) : bool :=
  match x with
  | Initiator_Cancel => true
  | _ => false
  end.

(** What ["read_the_things"] does, case by case on what the initiator
    delivers. *)
Definition finish (call_initiator : Initiator)
  (observer : ServerMetadata -> ServerMetadata) (was_cancelled : bool)
  : list Action :=
  let md := server_trailing_metadata call_initiator was_cancelled in
  [Call_on_server_trailing_metadata_from_initiator md;
   Handler_SpawnPushServerTrailingMetadata (observer md)].

Definition read_the_things_trace (call_initiator : Initiator)
  (observer : ServerMetadata -> ServerMetadata) : list Action :=
  match server_initial_metadata call_initiator with
  | Failed => [Initiator_Cancel] ++ finish call_initiator observer true
  | Value None => finish call_initiator observer false
  | Value (Some md) =>
      let s := server_messages call_initiator in
      [Handler_SpawnPushServerInitialMetadata md]
      ++ map Handler_SpawnPushMessage (messages s)
      ++ (if ends_ok s then [] else [Initiator_Cancel])
      ++ finish call_initiator observer (negb (ends_ok s))
  end.

End Forwarding.

Arguments Value {T} v.
Arguments Failed {T}.
Arguments Handler_AddChildCall {ServerMetadata Message}.
Arguments Handler_SpawnPushServerInitialMetadata {ServerMetadata Message} md.
Arguments Handler_SpawnPushMessage {ServerMetadata Message} msg.
Arguments Handler_SpawnPushServerTrailingMetadata {ServerMetadata Message} md.
Arguments Initiator_SpawnPushMessage {ServerMetadata Message} msg.
Arguments Initiator_SpawnFinishSends {ServerMetadata Message}.
Arguments Initiator_Cancel {ServerMetadata Message}.
Arguments Call_on_server_trailing_metadata_from_initiator
  {ServerMetadata Message} md.
Arguments Build_Stream {Message} messages ends_ok.
Arguments messages {Message} s.
Arguments ends_ok {Message} s.
Arguments Build_Initiator {ServerMetadata Message}.
Arguments server_initial_metadata {ServerMetadata Message} i.
Arguments server_messages {ServerMetadata Message} i.
Arguments server_trailing_metadata {ServerMetadata Message} i.
Arguments Build_Activity {ServerMetadata Message}.
Arguments cancelled {ServerMetadata Message} a.
Arguments trace {ServerMetadata Message} a.
Arguments Immediate {ServerMetadata Message T} v.
Arguments act {ServerMetadata Message} x.
Arguments Seq {ServerMetadata Message T U} p f.
Arguments TrySeq {ServerMetadata Message T} p f.
Arguments If {ServerMetadata Message T} cond if_true if_false.
Arguments ForEach_messages {ServerMetadata Message} msgs ends_ok action.
Arguments ForEach {ServerMetadata Message} s action.
Arguments CancelIfFails {ServerMetadata Message} p.
Arguments PullServerInitialMetadata {ServerMetadata Message} call_initiator.
Arguments PullServerTrailingMetadata {ServerMetadata Message} call_initiator.
Arguments MessagesFrom {Message} s.
Arguments read_messages {ServerMetadata Message} call_handler.
Arguments read_the_things {ServerMetadata Message} call_initiator
  on_server_trailing_metadata_from_initiator.
Arguments idle {ServerMetadata Message}.
Arguments Build_Forwarded {ServerMetadata Message}.
Arguments forward_call {ServerMetadata Message} f.
Arguments handler_participant {ServerMetadata Message} f.
Arguments initiator_participant {ServerMetadata Message} f.
Arguments ForwardCall {ServerMetadata Message} call_handler call_initiator
  on_server_trailing_metadata_from_initiator.
Arguments is_handler_push {ServerMetadata Message} x.
Arguments handler_pushes {ServerMetadata Message} t.
Arguments is_observer_call {ServerMetadata Message} x.
Arguments is_message_push {ServerMetadata Message} x.
Arguments is_trailing_push {ServerMetadata Message} x.
Arguments is_cancel {ServerMetadata Message} x.
Arguments finish {ServerMetadata Message} call_initiator observer
  was_cancelled.
Arguments read_the_things_trace {ServerMetadata Message} call_initiator
  observer.

End CallSpine.

(** ** grpc_polled_fd_posix.h *)

Module GrpcPolledFdFactoryPosix.

(** The factory, as far as its sockets go: [owned_fds_], the "fds that
    are used/owned by grpc - we (grpc) will close them rather than
    c-ares".  A [std::unordered_set] holds each element once; it is kept
    as a list without repeats, whose order stands for the order in which
    the container is walked. *)
Record Factory : Type := {
  owned_fds_ : set Z
}.

(** [explicit GrpcPolledFdFactoryPosix(PosixEventPoller* poller)], and
    [NewEmptyInstance()], which builds a factory on the same poller. *)
Definition GrpcPolledFdFactoryPosix : Factory :=
  {| owned_fds_ := empty_set Z |}.

Definition NewEmptyInstance (self : Factory) : Factory :=
  GrpcPolledFdFactoryPosix.

(** [NewGrpcPolledFdLocked(as)]: [owned_fds_.insert(as)]; the handle it
    then asks of the poller is no part of the factory. *)
Definition NewGrpcPolledFdLocked (as_ : Z) (self : Factory) : Factory :=
  {| owned_fds_ := set_add Z.eq_dec as_ (owned_fds_ self) |}.

Section Os.

(** What [close(2)] returns for a descriptor. *)
Variable close : Z -> Z.

(** [static int Close(ares_socket_t as, void* user_data)], the close
    override given to c-ares: its result, and the descriptors it has
    passed to [close]. *)
Definition Close (as_ : Z) (self : Factory) : Z * list Z :=
  if set_mem Z.eq_dec as_ (owned_fds_ self)
  then (0, [])
  else (close as_, [as_]).

(** [~GrpcPolledFdFactoryPosix()]: the descriptors passed to [close]. *)
Definition destroy (self : Factory) : list Z :=
  owned_fds_ self.

(** The calls made on a factory while it lives. *)
Inductive Call : Type :=
| CallNewGrpcPolledFdLocked (as_ : Z)
| CallClose (as_ : Z).

(** A sequence of calls: the factory they leave and the descriptors
    passed to [close] on the way. *)
Fixpoint calls (cs : list Call) (self : Factory) : Factory * list Z :=
  match cs with
  | [] => (self, [])
  | CallNewGrpcPolledFdLocked as_ :: rest =>
      calls rest (NewGrpcPolledFdLocked as_ self)
  | CallClose as_ :: rest =>
      let '(_, closed1) := Close as_ self in
      let '(self', closed2) := calls rest self in
      (self', closed1 ++ closed2)
  end.

End Os.

End GrpcPolledFdFactoryPosix.

(** ** traced_buffer_list.h *)

Module TracedBufferList.

Definition nullptr : Z := 0.
Definition INT_MAX : Z := 2 ^ 31 - 1.

(** The list under [GRPC_LINUX_ERRQUEUE]: [head_], and for each address
    at which a [TracedBuffer] lives its [next_] field. *)
Record List : Type := {
  head_ : Z;
  next_ : Z -> option Z
}.

(** The loop of [Size()]: [while (curr) { ++size; curr = curr->next_; }].
    There is no result when [curr] points at no [TracedBuffer], when the
    [int] would overflow, or within [fuel] steps. *)
Fixpoint Size_loop (fuel : nat) (next : Z -> option Z) (curr size : Z)
  : option Z :=
  if curr =? nullptr then Some size
  else
    match fuel with
    | O => None
    | S fuel' =>
        match next curr with
        | None => None
        | Some next_curr =>
            if size <? INT_MAX
            then Size_loop fuel' next next_curr (size + 1)
            else None
        end
    end.

(** [int Size()]. *)
Definition Size (fuel : nat) (l : List) : option Z :=
  Size_loop fuel (next_ l) (head_ l) 0.

(** The buffers from [curr] on, in order, up to the null pointer. *)
Inductive chain (next : Z -> option Z) : Z -> list Z -> Prop :=
| chain_end : chain next nullptr []
| chain_buffer (curr next_curr : Z) (rest : list Z) :
    curr <> nullptr -> next curr = Some next_curr ->
    chain next next_curr rest ->
    chain next curr (curr :: rest).

End TracedBufferList.

(** * Properties *)

(** ** Arithmetic of the packed word *)

Module RefPairFacts.
Import DualRefCounted.

Lemma u32_small (x : Z) : is_u32 x -> u32 x = x.
Proof. unfold is_u32, u32. intros H. apply Z.mod_small. exact H. Qed.

Lemma u64_small (x : Z) : is_u64 x -> u64 x = x.
Proof. unfold is_u64, u64. intros H. apply Z.mod_small. exact H. Qed.

Lemma u64_wrap (x : Z) : is_u64 x -> u64 (x + 2 ^ 64) = x.
Proof.
  unfold is_u64, u64. intros H.
  symmetry. apply (Z.mod_unique _ _ 1); lia.
Qed.

Lemma u32_wrap (x : Z) : is_u32 x -> u32 (x + 2 ^ 32) = x.
Proof.
  unfold is_u32, u32. intros H.
  symmetry. apply (Z.mod_unique _ _ 1); lia.
Qed.

Lemma u32_range (x : Z) : is_u32 (u32 x).
Proof. unfold is_u32, u32. apply Z.mod_pos_bound. lia. Qed.

Lemma u64_range (x : Z) : is_u64 (u64 x).
Proof. unfold is_u64, u64. apply Z.mod_pos_bound. lia. Qed.

Lemma MakeRefPair_val (s w : Z) :
  is_u32 s -> is_u32 w -> MakeRefPair s w = s * 2 ^ 32 + w.
Proof.
  intros Hs Hw. unfold MakeRefPair.
  rewrite (u32_small s Hs), (u32_small w Hw), Z.shiftl_mul_pow2 by lia.
  unfold is_u32 in *.
  rewrite (u64_small (s * 2 ^ 32)) by (unfold is_u64; lia).
  apply u64_small. unfold is_u64. lia.
Qed.

Lemma GetStrongRefs_val (s w : Z) :
  is_u32 s -> is_u32 w -> GetStrongRefs (s * 2 ^ 32 + w) = s.
Proof.
  intros Hs Hw. unfold GetStrongRefs.
  rewrite Z.shiftr_div_pow2 by lia.
  unfold is_u32 in *.
  rewrite Z.div_add_l, Z.div_small, Z.add_0_r by lia.
  apply u32_small. exact Hs.
Qed.

Lemma GetWeakRefs_mod (r : Z) : GetWeakRefs r = r mod 2 ^ 32.
Proof.
  unfold GetWeakRefs.
  change 0xffffffff with (Z.ones 32).
  rewrite Z.land_ones by lia.
  apply u32_small. apply u32_range.
Qed.

Lemma GetWeakRefs_val (s w : Z) :
  is_u32 w -> GetWeakRefs (s * 2 ^ 32 + w) = w.
Proof.
  intros Hw. rewrite GetWeakRefs_mod.
  rewrite Z.add_comm, Z.mod_add by lia.
  apply Z.mod_small. exact Hw.
Qed.

(** Every 64-bit word is the pair of its two halves. *)
Lemma ref_pair_split (r : Z) :
  is_u64 r ->
  is_u32 (GetStrongRefs r) /\ is_u32 (GetWeakRefs r) /\
  r = GetStrongRefs r * 2 ^ 32 + GetWeakRefs r.
Proof.
  intros Hr. unfold is_u64 in Hr.
  assert (Hs : is_u32 (r / 2 ^ 32)).
  { unfold is_u32. split.
    - apply Z.div_pos; lia.
    - apply Z.div_lt_upper_bound; lia. }
  assert (Hw : is_u32 (r mod 2 ^ 32)).
  { unfold is_u32. apply Z.mod_pos_bound. lia. }
  assert (E : r = r / 2 ^ 32 * 2 ^ 32 + r mod 2 ^ 32).
  { rewrite Z.mul_comm. apply Z.div_mod. lia. }
  assert (Es : GetStrongRefs r = r / 2 ^ 32).
  { rewrite E at 1. apply GetStrongRefs_val; assumption. }
  assert (Ew : GetWeakRefs r = r mod 2 ^ 32) by apply GetWeakRefs_mod.
  rewrite Es, Ew. auto.
Qed.

Lemma MakeRefPair_minus1_1 : MakeRefPair (-1) 1 = 2 ^ 64 - 2 ^ 32 + 1.
Proof. reflexivity. Qed.

Lemma MakeRefPair_1_0 : MakeRefPair 1 0 = 2 ^ 32.
Proof. reflexivity. Qed.

Lemma MakeRefPair_0_1 : MakeRefPair 0 1 = 1.
Proof. reflexivity. Qed.

End RefPairFacts.

(** ** The operations on a pair of halves *)

Module RefOpFacts.
Import DualRefCounted RefPairFacts.

Lemma IncrementRefCount_pair (s w : Z) :
  is_u32 s -> is_u32 w ->
  IncrementRefCount (s * 2 ^ 32 + w) =
  if s <? UINT32_MAX then (s + 1) * 2 ^ 32 + w else w.
Proof.
  intros Hs Hw. unfold IncrementRefCount, fetch_add, UINT32_MAX, is_u32 in *.
  cbn [snd]. rewrite MakeRefPair_1_0.
  destruct (Z.ltb_spec s (2 ^ 32 - 1)).
  - rewrite u64_small; unfold is_u64; lia.
  - replace (s * 2 ^ 32 + w + 2 ^ 32) with (w + 2 ^ 64) by lia.
    apply u64_wrap. unfold is_u64. lia.
Qed.

Lemma IncrementWeakRefCount_pair (s w : Z) :
  is_u32 s -> is_u32 w ->
  IncrementWeakRefCount (s * 2 ^ 32 + w) =
  if w <? UINT32_MAX then s * 2 ^ 32 + (w + 1)
  else if s <? UINT32_MAX then (s + 1) * 2 ^ 32 + 0
       else 0.
Proof.
  intros Hs Hw.
  unfold IncrementWeakRefCount, fetch_add, UINT32_MAX, is_u32 in *.
  cbn [snd]. rewrite MakeRefPair_0_1.
  destruct (Z.ltb_spec w (2 ^ 32 - 1)).
  - rewrite u64_small; unfold is_u64; lia.
  - destruct (Z.ltb_spec s (2 ^ 32 - 1)).
    + rewrite u64_small; unfold is_u64; lia.
    + replace (s * 2 ^ 32 + w + 1) with (0 + 2 ^ 64) by lia.
      apply u64_wrap. unfold is_u64. lia.
Qed.

Lemma WeakUnref_pair (s w : Z) :
  is_u32 s -> is_u32 w -> 1 <= w ->
  WeakUnref (s * 2 ^ 32 + w) =
  (s * 2 ^ 32 + (w - 1),
   if (s =? 0) && (w =? 1) then [Destroyed] else []).
Proof.
  intros Hs Hw H1. unfold WeakUnref, fetch_sub, is_u32 in *.
  rewrite MakeRefPair_0_1. f_equal.
  - rewrite u64_small; unfold is_u64; lia.
  - destruct (Z.eqb_spec s 0), (Z.eqb_spec w 1),
      (Z.eqb_spec (s * 2 ^ 32 + w) 1); cbn [andb]; try reflexivity; lia.
Qed.

Lemma Unref_convert_pair (s w : Z) :
  is_u32 s -> is_u32 w -> 1 <= s ->
  Unref_convert (s * 2 ^ 32 + w) =
  ((if w <? UINT32_MAX then (s - 1) * 2 ^ 32 + (w + 1) else s * 2 ^ 32 + 0),
   if s =? 1 then [Orphaned] else []).
Proof.
  intros Hs Hw H1. unfold Unref_convert, fetch_add.
  rewrite MakeRefPair_minus1_1, GetStrongRefs_val by assumption.
  unfold UINT32_MAX, is_u32 in *. f_equal.
  destruct (Z.ltb_spec w (2 ^ 32 - 1)).
  - replace (s * 2 ^ 32 + w + (2 ^ 64 - 2 ^ 32 + 1))
      with ((s - 1) * 2 ^ 32 + (w + 1) + 2 ^ 64) by lia.
    apply u64_wrap. unfold is_u64. lia.
  - replace (s * 2 ^ 32 + w + (2 ^ 64 - 2 ^ 32 + 1))
      with (s * 2 ^ 32 + 0 + 2 ^ 64) by lia.
    apply u64_wrap. unfold is_u64. lia.
Qed.

(** The halves of a word built from in-range halves. *)
Lemma halves_of_pair (s w : Z) :
  is_u32 s -> is_u32 w ->
  GetStrongRefs (s * 2 ^ 32 + w) = s /\ GetWeakRefs (s * 2 ^ 32 + w) = w.
Proof.
  intros Hs Hw. split.
  - apply GetStrongRefs_val; assumption.
  - apply GetWeakRefs_val; assumption.
Qed.

Lemma pair_is_u64 (s w : Z) :
  is_u32 s -> is_u32 w -> is_u64 (s * 2 ^ 32 + w).
Proof. unfold is_u32, is_u64. lia. Qed.

(** *** C9 *)

(** C9.  For all 32-bit values [s] and [w] the two getters recover the
    halves that [MakeRefPair] packed; and when [s >= 1] and
    [w < 2^32 - 1], adding the constant [MakeRefPair(-1, 1)] modulo 2^64,
    as the [fetch_add] of [Unref] does, gives [MakeRefPair(s - 1, w + 1)]:
    nothing is carried or borrowed between the halves. *)
Theorem MakeRefPair_roundtrip_and_fused_update (s w : Z) :
  is_u32 s -> is_u32 w ->
  GetStrongRefs (MakeRefPair s w) = s /\
  GetWeakRefs (MakeRefPair s w) = w /\
  (1 <= s -> w < 2 ^ 32 - 1 ->
   snd (fetch_add (MakeRefPair s w) (MakeRefPair (-1) 1)) =
   MakeRefPair (s - 1) (w + 1)).
Proof.
  intros Hs Hw. rewrite (MakeRefPair_val s w Hs Hw).
  destruct (halves_of_pair s w Hs Hw) as [Es Ew].
  split; [exact Es|]. split; [exact Ew|].
  intros H1 H2. unfold fetch_add. cbn [snd].
  rewrite MakeRefPair_minus1_1.
  unfold is_u32 in *.
  rewrite MakeRefPair_val by (unfold is_u32; lia).
  replace (s * 2 ^ 32 + w + (2 ^ 64 - 2 ^ 32 + 1))
    with ((s - 1) * 2 ^ 32 + (w + 1) + 2 ^ 64) by lia.
  apply u64_wrap. unfold is_u64. lia.
Qed.

Lemma MakeRefPair_roundtrip_and_fused_update_witness :
  GetStrongRefs (MakeRefPair 3 7) = 3 /\
  GetWeakRefs (MakeRefPair 3 7) = 7 /\
  (1 <= 3 -> 7 < 2 ^ 32 - 1 ->
   snd (fetch_add (MakeRefPair 3 7) (MakeRefPair (-1) 1)) =
   MakeRefPair (3 - 1) (7 + 1)).
Proof.
  apply (MakeRefPair_roundtrip_and_fused_update 3 7);
    unfold is_u32; lia.
Defined.

End RefOpFacts.

(** ** [WeakUnref], [Unref], the constructor and [RefIfNonZero] *)

Module UnrefFacts.
Import DualRefCounted RefPairFacts RefOpFacts.

(** Rewrites a word in range as the pair of its halves, naming them. *)
Ltac split_word r s w Hs Hw :=
  match goal with
  | H : is_u64 r |- _ =>
      let E := fresh "E" in
      destruct (ref_pair_split r H) as (Hs & Hw & E);
      set (s := GetStrongRefs r) in *;
      set (w := GetWeakRefs r) in *;
      clearbody s w; subst r
  end.

(** *** C3 *)

(** C3.  [WeakUnref()] on an object whose weak count is at least one
    lowers the weak count by one and leaves the strong count alone; it
    invokes the destroy behavior exactly when the pair it read was
    (strong = 0, weak = 1), which is exactly when the pair it leaves is
    (0, 0); it never invokes it more than once. *)
Theorem WeakUnref_decrements_and_destroys_at_zero (refs : Z) :
  is_u64 refs -> 1 <= GetWeakRefs refs ->
  let '(refs', ev) := WeakUnref refs in
  GetWeakRefs refs' = GetWeakRefs refs - 1 /\
  GetStrongRefs refs' = GetStrongRefs refs /\
  (In Destroyed ev <-> GetStrongRefs refs = 0 /\ GetWeakRefs refs = 1) /\
  (In Destroyed ev <-> refs' = MakeRefPair 0 0) /\
  (ev = [Destroyed] \/ ev = []).
Proof.
  intros Hr H1. split_word refs s w Hs Hw.
  rewrite WeakUnref_pair by assumption.
  assert (Hw' : is_u32 (w - 1)) by (unfold is_u32 in *; lia).
  destruct (halves_of_pair s (w - 1) Hs Hw') as [Es Ew].
  rewrite Es, Ew.
  change (MakeRefPair 0 0) with 0.
  unfold is_u32 in *.
  destruct (Z.eqb_spec s 0), (Z.eqb_spec w 1); cbn [andb In];
    repeat split; try tauto; try lia; intros; try lia;
    try (left; reflexivity); intuition (try discriminate; try lia).
Qed.

Lemma WeakUnref_decrements_and_destroys_at_zero_witness :
  let '(refs', ev) := WeakUnref (MakeRefPair 0 1) in
  GetWeakRefs refs' = GetWeakRefs (MakeRefPair 0 1) - 1 /\
  GetStrongRefs refs' = GetStrongRefs (MakeRefPair 0 1) /\
  (In Destroyed ev <->
   GetStrongRefs (MakeRefPair 0 1) = 0 /\ GetWeakRefs (MakeRefPair 0 1) = 1) /\
  (In Destroyed ev <-> refs' = MakeRefPair 0 0) /\
  (ev = [Destroyed] \/ ev = []).
Proof.
  apply (WeakUnref_decrements_and_destroys_at_zero (MakeRefPair 0 1)).
  - unfold is_u64. vm_compute. split; [discriminate | reflexivity].
  - vm_compute. discriminate.
Defined.

(** *** C2 *)

(** [Unref()] calls [Orphaned()] exactly when the strong count it read
    was 1, whatever the weak count. *)
Lemma Unref_convert_orphans_iff (refs : Z) :
  In Orphaned (snd (Unref_convert refs)) <-> GetStrongRefs refs = 1.
Proof.
  unfold Unref_convert, fetch_add. cbn [snd].
  destruct (Z.eqb_spec (GetStrongRefs refs) 1); cbn [In];
    intuition discriminate.
Qed.

(** C2, as stated, fails when the weak count is at its maximum: on the
    pair (strong = 1, weak = 2^32 - 1) the addition carries out of the weak
    half into the strong half, so that the strong count stays 1 and the
    weak count becomes 0 instead of growing, and the total changes. *)
Lemma Unref_fused_update_carries_at_weak_max :
  let refs := MakeRefPair 1 UINT32_MAX in
  is_u64 refs /\ 1 <= GetStrongRefs refs /\
  let '(refs1, ev1) := Unref_convert refs in
  GetStrongRefs refs1 <> GetStrongRefs refs - 1 /\
  GetWeakRefs refs1 <> GetWeakRefs refs + 1 /\
  GetStrongRefs refs1 + GetWeakRefs refs1 <>
  GetStrongRefs refs + GetWeakRefs refs.
Proof.
  vm_compute. repeat split; discriminate.
Qed.

(** C2 (amended).  [Unref()] on an object with strong count at least 1
    and weak count below 2^32 - 1 makes one fused update that lowers the
    strong count by one and raises the weak count by one, calls
    [Orphaned()] exactly when the strong count it read was 1, and then
    performs one [WeakUnref()]; while [Orphaned()] runs the total of the
    two counts is what it was, and the weak count is at least 1. *)
Theorem Unref_fused_update (refs : Z) :
  is_u64 refs -> 1 <= GetStrongRefs refs -> GetWeakRefs refs < UINT32_MAX ->
  let '(refs1, ev1) := Unref_convert refs in
  GetStrongRefs refs1 = GetStrongRefs refs - 1 /\
  GetWeakRefs refs1 = GetWeakRefs refs + 1 /\
  (In Orphaned ev1 <-> GetStrongRefs refs = 1) /\
  (ev1 = [Orphaned] \/ ev1 = []) /\
  GetStrongRefs refs1 + GetWeakRefs refs1 =
  GetStrongRefs refs + GetWeakRefs refs /\
  Unref refs = (fst (WeakUnref refs1), ev1 ++ snd (WeakUnref refs1)).
Proof.
  intros Hr H1 H2. unfold Unref.
  split_word refs s w Hs Hw.
  rewrite Unref_convert_pair by assumption.
  apply Z.ltb_lt in H2. rewrite H2. apply Z.ltb_lt in H2.
  unfold UINT32_MAX in H2.
  assert (Hs' : is_u32 (s - 1)) by (unfold is_u32 in *; lia).
  assert (Hw' : is_u32 (w + 1)) by (unfold is_u32 in *; lia).
  destruct (halves_of_pair (s - 1) (w + 1) Hs' Hw') as [Es Ew].
  rewrite Es, Ew.
  split; [reflexivity|]. split; [reflexivity|].
  split.
  { destruct (Z.eqb_spec s 1) as [E1|E1]; cbn [In]; split; intros H.
    - exact E1.
    - left; reflexivity.
    - contradiction.
    - contradiction. }
  split.
  { destruct (s =? 1); [left|right]; reflexivity. }
  split; [lia|].
  destruct (WeakUnref ((s - 1) * 2 ^ 32 + (w + 1))). reflexivity.
Qed.

Lemma Unref_fused_update_witness :
  let '(refs1, ev1) := Unref_convert (MakeRefPair 1 0) in
  GetStrongRefs refs1 = GetStrongRefs (MakeRefPair 1 0) - 1 /\
  GetWeakRefs refs1 = GetWeakRefs (MakeRefPair 1 0) + 1 /\
  (In Orphaned ev1 <-> GetStrongRefs (MakeRefPair 1 0) = 1) /\
  (ev1 = [Orphaned] \/ ev1 = []) /\
  GetStrongRefs refs1 + GetWeakRefs refs1 =
  GetStrongRefs (MakeRefPair 1 0) + GetWeakRefs (MakeRefPair 1 0) /\
  Unref (MakeRefPair 1 0) =
  (fst (WeakUnref refs1), ev1 ++ snd (WeakUnref refs1)).
Proof.
  apply (Unref_fused_update (MakeRefPair 1 0)).
  - unfold is_u64. vm_compute. split; [discriminate | reflexivity].
  - vm_compute. discriminate.
  - vm_compute. reflexivity.
Defined.

(** *** C10 *)

(** C10, as stated, fails for a negative [initial_refcount]: the
    [int32_t] argument is converted to the [uint32_t] parameter of
    [MakeRefPair], and the strong count of an object built with -1 is
    2^32 - 1. *)
Lemma DualRefCounted_negative_initial_refcount :
  is_int32 (-1) /\
  GetStrongRefs (DualRefCounted (-1)) <> -1 /\
  GetStrongRefs (DualRefCounted (-1)) = 4294967295.
Proof.
  unfold is_int32. vm_compute. repeat split; discriminate.
Qed.

(** C10 (amended).  The constructor initializes the pair to
    (strong = [initial_refcount] converted to [uint32_t], weak = 0): the
    strong count is [initial_refcount] itself when that is not negative
    and [initial_refcount + 2^32] when it is; the weak count is always
    zero; and a strong count other than the default 1 can be asked
    for. *)
Theorem DualRefCounted_initial_ref_pair (initial_refcount : Z) :
  is_int32 initial_refcount ->
  GetWeakRefs (DualRefCounted initial_refcount) = 0 /\
  GetStrongRefs (DualRefCounted initial_refcount) = u32 initial_refcount /\
  (0 <= initial_refcount ->
   GetStrongRefs (DualRefCounted initial_refcount) = initial_refcount) /\
  (initial_refcount < 0 ->
   GetStrongRefs (DualRefCounted initial_refcount) =
   initial_refcount + 2 ^ 32) /\
  default_initial_refcount = 1 /\
  (exists n, is_int32 n /\ n <> default_initial_refcount /\
             GetStrongRefs (DualRefCounted n) = n /\
             GetWeakRefs (DualRefCounted n) = 0).
Proof.
  intros Hi. unfold DualRefCounted, is_int32 in *.
  assert (E : MakeRefPair initial_refcount 0 = u32 initial_refcount * 2 ^ 32 + 0).
  { unfold MakeRefPair. change (u32 0) with 0.
    rewrite Z.shiftl_mul_pow2 by lia.
    pose proof (u32_range initial_refcount) as Hu. unfold is_u32 in Hu.
    rewrite (u64_small (u32 initial_refcount * 2 ^ 32))
      by (unfold is_u64; lia).
    apply u64_small. unfold is_u64. lia. }
  rewrite E.
  assert (H0 : is_u32 0) by (unfold is_u32; lia).
  destruct (halves_of_pair (u32 initial_refcount) 0
              (u32_range initial_refcount) H0) as [Es Ew].
  rewrite Es, Ew.
  repeat split.
  - intros Hn. apply u32_small. unfold is_u32. lia.
  - intros Hn.
    replace initial_refcount with (initial_refcount + 2 ^ 32 - 2 ^ 32) at 1
      by lia.
    unfold u32. symmetry. apply (Z.mod_unique _ _ (-1)); lia.
  - exists 2. vm_compute. repeat split; discriminate.
Qed.

Lemma DualRefCounted_initial_ref_pair_witness :
  GetWeakRefs (DualRefCounted 1) = 0 /\
  GetStrongRefs (DualRefCounted 1) = u32 1 /\
  (0 <= 1 -> GetStrongRefs (DualRefCounted 1) = 1) /\
  (1 < 0 -> GetStrongRefs (DualRefCounted 1) = 1 + 2 ^ 32) /\
  default_initial_refcount = 1 /\
  (exists n, is_int32 n /\ n <> default_initial_refcount /\
             GetStrongRefs (DualRefCounted n) = n /\
             GetWeakRefs (DualRefCounted n) = 0).
Proof.
  apply (DualRefCounted_initial_ref_pair 1). unfold is_int32. lia.
Defined.

(** *** C4 *)

(** C4, as stated, fails when the strong count is at its maximum: on
    the pair (strong = 2^32 - 1, weak = 0) [RefIfNonZero()] returns a
    handle, and the addition wraps the strong count round to 0 instead of
    raising it by one. *)
Lemma RefIfNonZero_wraps_at_strong_max :
  let refs := MakeRefPair UINT32_MAX 0 in
  is_u64 refs /\ 0 < GetStrongRefs refs /\
  fst (RefIfNonZero [] refs) = true /\
  GetStrongRefs (snd (RefIfNonZero [] refs)) <> GetStrongRefs refs + 1 /\
  GetStrongRefs (snd (RefIfNonZero [] refs)) = 0.
Proof.
  vm_compute. repeat split; discriminate.
Qed.

(** The values the loop of [RefIfNonZero] reads are [refs] and then the
    reloaded ones, in order.  It stops on the first of them whose strong
    count is zero, without a handle, or, when there is none, on the last
    of them, which its compare-exchange then replaces. *)
Lemma RefIfNonZero_loop_spec (reloads : list Z) :
  forall refs,
  exists before observed unread,
    refs :: reloads = before ++ observed :: unread /\
    Forall (fun v => GetStrongRefs v <> 0) before /\
    ((GetStrongRefs observed = 0 /\
      RefIfNonZero_loop reloads refs = (false, observed)) \/
     (GetStrongRefs observed <> 0 /\ unread = [] /\
      RefIfNonZero_loop reloads refs =
      (true, snd (fetch_add observed (MakeRefPair 1 0))))).
Proof.
  induction reloads as [|v rest IH]; intros refs; cbn [RefIfNonZero_loop].
  - exists [], refs, []. split; [reflexivity|]. split; [constructor|].
    destruct (Z.eqb_spec (GetStrongRefs refs) 0) as [E|E]; auto.
  - destruct (Z.eqb_spec (GetStrongRefs refs) 0) as [E|E].
    + exists [], refs, (v :: rest).
      split; [reflexivity|]. split; [constructor|]. auto.
    + destruct (IH v) as (before & o & unread & Hsplit & Hbefore & Hres).
      exists (refs :: before), o, unread.
      split; [cbn [app]; f_equal; exact Hsplit|].
      split; [constructor; assumption|]. exact Hres.
Qed.

(** C4 (amended).  Under any interference by other threads, the values
    [RefIfNonZero()] reads are the value of [refs_] on entry and then the
    values its failed compare-exchanges reload, in order; every one but
    the last read has a strong count greater than zero, and the last read,
    [observed], is either the first with a strong count of zero or the one
    on which the compare-exchange succeeds.  A handle is returned if and
    only if the strong count of [observed] is greater than zero, and the
    compare-exchange has then stored [observed] plus [MakeRefPair(1, 0)]:
    the weak count is the same and the strong count is one more, modulo
    2^32 (exactly one more below 2^32 - 1).  No handle is returned when
    that strong count is zero, and then nothing has been stored. *)
Theorem RefIfNonZero_succeeds_iff_strong_nonzero
  (reloads : list Z) (refs : Z) :
  is_u64 refs -> Forall is_u64 reloads ->
  let '(handle, refs') := RefIfNonZero reloads refs in
  exists before observed unread,
    refs :: reloads = before ++ observed :: unread /\
    Forall (fun v => 0 < GetStrongRefs v) before /\
    (0 < GetStrongRefs observed -> unread = []) /\
    (handle = true <-> 0 < GetStrongRefs observed) /\
    (handle = true ->
     refs' = snd (fetch_add observed (MakeRefPair 1 0)) /\
     GetWeakRefs refs' = GetWeakRefs observed /\
     GetStrongRefs refs' = u32 (GetStrongRefs observed + 1) /\
     (GetStrongRefs observed < UINT32_MAX ->
      GetStrongRefs refs' = GetStrongRefs observed + 1)) /\
    (handle = false -> GetStrongRefs observed = 0 /\ refs' = observed).
Proof.
  intros Hr Hall. unfold RefIfNonZero.
  destruct (RefIfNonZero_loop_spec reloads refs)
    as (before & o & unread & Hsplit & Hbefore & Hres).
  assert (Hread : Forall is_u64 (before ++ o :: unread)).
  { rewrite <- Hsplit. constructor; assumption. }
  apply Forall_app in Hread. destruct Hread as [Hb Ho].
  apply Forall_cons_iff in Ho. destruct Ho as [Ho _].
  assert (Hpos : Forall (fun v => 0 < GetStrongRefs v) before).
  { clear - Hbefore Hb. induction before as [|b l IH]; constructor.
    - apply Forall_cons_iff in Hbefore, Hb.
      destruct (ref_pair_split b (proj1 Hb)) as (Hs & _).
      unfold is_u32 in Hs. destruct Hbefore. lia.
    - apply Forall_cons_iff in Hbefore, Hb. apply IH; tauto. }
  destruct (ref_pair_split o Ho) as (Hs & Hw & E).
  set (s := GetStrongRefs o) in *. set (w := GetWeakRefs o) in *.
  destruct Hres as [[Ez Hrun]|(Enz & Hun & Hrun)]; rewrite Hrun;
    exists before, o, unread; fold s w;
    (split; [exact Hsplit|]); (split; [exact Hpos|]).
  - split; [lia|]. split; [split; [discriminate | lia]|].
    split; [discriminate|]. auto.
  - assert (H0 : 0 < s) by (unfold is_u32 in Hs; lia).
    split; [intros _; exact Hun|]. split; [split; auto|].
    split; [|discriminate]. intros _.
    split; [reflexivity|].
    change (snd (fetch_add o (MakeRefPair 1 0))) with (IncrementRefCount o).
    clearbody s w. subst o.
    rewrite IncrementRefCount_pair by assumption.
    unfold UINT32_MAX, is_u32 in *.
    destruct (Z.ltb_spec s (2 ^ 32 - 1)) as [Hlt|Hge].
    + assert (Hs1 : is_u32 (s + 1)) by (unfold is_u32; lia).
      destruct (halves_of_pair (s + 1) w Hs1 Hw) as [Es Ew].
      rewrite Es, Ew. rewrite (u32_small (s + 1) Hs1). auto.
    + assert (Hz : is_u32 0) by (unfold is_u32; lia).
      destruct (halves_of_pair 0 w Hz Hw) as [Es Ew].
      change (0 * 2 ^ 32 + w) with w in Es, Ew.
      rewrite Es, Ew.
      split; [reflexivity|]. split; [|lia].
      replace (s + 1) with (0 + 2 ^ 32) by lia.
      symmetry. apply u32_wrap. exact Hz.
Qed.

Lemma RefIfNonZero_succeeds_iff_strong_nonzero_witness :
  let '(handle, refs') :=
    RefIfNonZero [MakeRefPair 0 1; MakeRefPair 5 5] (MakeRefPair 1 0) in
  exists before observed unread,
    [MakeRefPair 1 0; MakeRefPair 0 1; MakeRefPair 5 5]
    = before ++ observed :: unread /\
    Forall (fun v => 0 < GetStrongRefs v) before /\
    (0 < GetStrongRefs observed -> unread = []) /\
    (handle = true <-> 0 < GetStrongRefs observed) /\
    (handle = true ->
     refs' = snd (fetch_add observed (MakeRefPair 1 0)) /\
     GetWeakRefs refs' = GetWeakRefs observed /\
     GetStrongRefs refs' = u32 (GetStrongRefs observed + 1) /\
     (GetStrongRefs observed < UINT32_MAX ->
      GetStrongRefs refs' = GetStrongRefs observed + 1)) /\
    (handle = false -> GetStrongRefs observed = 0 /\ refs' = observed).
Proof.
  apply (RefIfNonZero_succeeds_iff_strong_nonzero
           [MakeRefPair 0 1; MakeRefPair 5 5] (MakeRefPair 1 0)).
  - unfold is_u64. vm_compute. split; [discriminate | reflexivity].
  - repeat constructor; vm_compute; discriminate.
Defined.

End UnrefFacts.

(** ** Sequences of operations *)

Module RunFacts.
Import DualRefCounted RefPairFacts RefOpFacts UnrefFacts.

Lemma count_cons (a b : Op) (l : list Op) :
  count a (b :: l) = (if Op_eqb a b then 1 else 0) + count a l.
Proof.
  unfold count. cbn [filter].
  destruct (Op_eqb a b); cbn [length]; lia.
Qed.

Lemma GetWeakRefs_small (w : Z) : is_u32 w -> GetWeakRefs w = w.
Proof.
  intros Hw. rewrite GetWeakRefs_mod. apply Z.mod_small. exact Hw.
Qed.

Lemma step_debug_pair (op : Op) (s w refs1 : Z) (ev1 : list Event) :
  is_u32 s -> is_u32 w ->
  step_debug op (s * 2 ^ 32 + w) = Some (refs1, ev1) ->
  step_debug_result op s w refs1 ev1.
Proof.
  intros Hs Hw. unfold step_debug, CHECK.
  destruct (checks op (s * 2 ^ 32 + w)) eqn:Hc; [|discriminate].
  intros H. injection H as H. 
  destruct (halves_of_pair s w Hs Hw) as [Es Ew].
  destruct op; cbn [checks step step_debug_result] in *.
  - rewrite Es in Hc. rewrite IncrementRefCount_pair in H by assumption.
    injection H as <- <-.
    destruct (Z.eqb_spec s 0); [discriminate|].
    unfold is_u32 in *. repeat split; lia.
  - unfold Unref_check, WeakUnref_check in Hc.
    apply andb_prop in Hc. destruct Hc as [Hc1 Hc2].
    rewrite Es in Hc1. apply Z.ltb_lt in Hc1.
    assert (H1 : 1 <= s) by lia.
    unfold Unref in H.
    rewrite Unref_convert_pair in Hc2, H by assumption.
    cbn [fst] in Hc2.
    destruct (Z.ltb_spec w UINT32_MAX) as [Hlt|Hge].
    + unfold UINT32_MAX in Hlt.
      assert (Hs' : is_u32 (s - 1)) by (unfold is_u32 in *; lia).
      assert (Hw' : is_u32 (w + 1)) by (unfold is_u32 in *; lia).
      rewrite WeakUnref_pair in H by (try assumption; unfold is_u32 in *; lia).
      injection H as <- <-.
      split; [exact H1|]. split; [unfold UINT32_MAX; lia|].
      split; [f_equal; lia|].
      f_equal.
      destruct (Z.eqb_spec s 1), (Z.eqb_spec (s - 1) 0),
        (Z.eqb_spec w 0), (Z.eqb_spec (w + 1) 1);
        cbn [andb]; try reflexivity; lia.
    + rewrite GetWeakRefs_val in Hc2 by (unfold is_u32; lia).
      discriminate.
  - rewrite Es, Ew in Hc.
    rewrite IncrementWeakRefCount_pair in H by assumption.
    injection H as <- <-.
    split; [|split; reflexivity].
    unfold is_u32 in *.
    destruct (Z.eqb_spec s 0); [|lia].
    destruct (Z.eqb_spec w 0); [discriminate|lia].
  - unfold WeakUnref_check in Hc. rewrite Ew in Hc. apply Z.ltb_lt in Hc.
    assert (H1 : 1 <= w) by lia.
    rewrite WeakUnref_pair in H by assumption.
    injection H as <- <-. auto.
Qed.

Ltac run_debug_cons H r1 ev1 r2 ev2 Es Er :=
  cbn [run_debug] in H;
  destruct (step_debug _ _) as [[r1 ev1]|] eqn:Es; [|discriminate H];
  destruct (run_debug _ r1) as [[r2 ev2]|] eqn:Er; [|discriminate H];
  injection H as <- <-.

Lemma net_cons (op : Op) (ops : list Op) :
  net_strong (op :: ops) =
    match op with OpRef => 1 | OpUnref => -1 | _ => 0 end + net_strong ops /\
  net_weak (op :: ops) =
    match op with OpWeakRef => 1 | OpWeakUnref => -1 | _ => 0 end
    + net_weak ops.
Proof.
  unfold net_strong, net_weak. rewrite !count_cons.
  destruct op; cbn [Op_eqb]; lia.
Qed.

(** A checked operation never wraps downwards: the word and its weak half
    end no higher than the exact sums. *)
Lemma run_debug_bounds (ops : list Op) :
  forall refs refs' ev,
    is_u64 refs -> run_debug ops refs = Some (refs', ev) ->
    is_u64 refs' /\
    refs' <= refs + 2 ^ 32 * net_strong ops + net_weak ops /\
    GetWeakRefs refs' <= GetWeakRefs refs + net_weak ops.
Proof.
  induction ops as [|op rest IH]; intros refs refs' ev Hr H.
  - cbn [run_debug] in H. injection H as <- <-.
    unfold net_strong, net_weak, count. cbn. repeat split; try apply Hr; lia.
  - run_debug_cons H r1 ev1 r2 ev2 Es Er.
    destruct (net_cons op rest) as [Ns Nw]. rewrite Ns, Nw. clear Ns Nw.
    split_word refs s w Hs Hw.
    apply step_debug_pair in Es; try assumption.
    assert (B : is_u64 r1 /\
                r1 <= s * 2 ^ 32 + w
                      + 2 ^ 32 * match op with
                                 | OpRef => 1 | OpUnref => -1 | _ => 0 end
                      + match op with
                        | OpWeakRef => 1 | OpWeakUnref => -1 | _ => 0 end /\
                GetWeakRefs r1 <=
                w + match op with
                    | OpWeakRef => 1 | OpWeakUnref => -1 | _ => 0 end).
    { unfold UINT32_MAX, is_u32, is_u64 in *.
      destruct op; cbn [step_debug_result] in Es; unfold UINT32_MAX in Es.
      - destruct Es as (H1 & _ & ->).
        destruct (Z.ltb_spec s (2 ^ 32 - 1)).
        + rewrite GetWeakRefs_val by exact Hw. lia.
        + rewrite GetWeakRefs_small by exact Hw. lia.
      - destruct Es as (H1 & H2 & -> & _).
        rewrite GetWeakRefs_val by exact Hw. lia.
      - destruct Es as (H1 & _ & ->).
        destruct (Z.ltb_spec w (2 ^ 32 - 1)).
        + rewrite GetWeakRefs_val by (unfold is_u32; lia). lia.
        + destruct (Z.ltb_spec s (2 ^ 32 - 1)).
          * rewrite GetWeakRefs_val by (unfold is_u32; lia). lia.
          * change (GetWeakRefs 0) with 0. lia.
      - destruct Es as (H1 & -> & _).
        rewrite GetWeakRefs_val by (unfold is_u32; lia). lia. }
    destruct B as (Br & Bv & Bw).
    destruct (IH r1 r2 ev2 Br Er) as (I1 & I2 & I3).
    split; [exact I1|]. split; lia.
Qed.

(** The heart of C1: a checked run whose operations give back exactly
    the counts the object holds ends on (0, 0), has emitted [Orphaned] once
    if a strong ref was held, and [Destroyed] once, last. *)
Lemma run_debug_releases_all (ops : list Op) :
  forall refs refs' ev,
    is_u64 refs -> run_debug ops refs = Some (refs', ev) ->
    GetStrongRefs refs + net_strong ops = 0 ->
    GetWeakRefs refs + net_weak ops = 0 ->
    refs' = 0 /\
    ev = (if refs =? 0 then []
          else if GetStrongRefs refs =? 0 then [Destroyed]
               else [Orphaned; Destroyed]).
Proof.
  induction ops as [|op rest IH]; intros refs refs' ev Hr H Hst Hwk.
  - cbn [run_debug] in H. injection H as <- <-.
    unfold net_strong, net_weak, count in *. cbn in Hst, Hwk.
    destruct (ref_pair_split refs Hr) as (_ & _ & E).
    assert (refs = 0) by lia. subst refs. auto.
  - run_debug_cons H r1 ev1 r2 ev2 Es Er.
    destruct (net_cons op rest) as [Ns Nw]. rewrite Ns in Hst. rewrite Nw in Hwk.
    clear Ns Nw.
    split_word refs s w Hs Hw.
    apply step_debug_pair in Es; try assumption.
    assert (Hr1 : is_u64 r1).
    { unfold UINT32_MAX, is_u32, is_u64 in *.
      destruct op; cbn [step_debug_result] in Es; unfold UINT32_MAX in Es.
      - destruct Es as (H1 & _ & ->). destruct (s <? 2 ^ 32 - 1) eqn:Hl;
          [apply Z.ltb_lt in Hl|]; lia.
      - destruct Es as (H1 & H2 & -> & _). lia.
      - destruct Es as (H1 & _ & ->).
        destruct (w <? 2 ^ 32 - 1) eqn:Hl; [apply Z.ltb_lt in Hl; lia|].
        destruct (s <? 2 ^ 32 - 1) eqn:Hl2; [apply Z.ltb_lt in Hl2|]; lia.
      - destruct Es as (H1 & -> & _). lia. }
    destruct (run_debug_bounds rest r1 r2 ev2 Hr1 Er) as (B1 & B2 & B3).
    specialize (IH r1 r2 ev2 Hr1 Er).
    unfold UINT32_MAX in *.
    assert (Rs : forall a b, is_u32 a -> is_u32 b ->
                 GetStrongRefs (a * 2 ^ 32 + b) = a)
      by (intros; apply GetStrongRefs_val; assumption).
    assert (Rw : forall a b, is_u32 b -> GetWeakRefs (a * 2 ^ 32 + b) = b)
      by (intros; apply GetWeakRefs_val; assumption).
    assert (Nz : (s * 2 ^ 32 + w =? 0) = (s =? 0) && (w =? 0)).
    { unfold is_u32 in *.
      destruct (Z.eqb_spec (s * 2 ^ 32 + w) 0), (Z.eqb_spec s 0),
        (Z.eqb_spec w 0); cbn [andb]; try reflexivity; lia. }
    rewrite Nz. clear Nz.
    destruct op; cbn [step_debug_result] in Es; unfold UINT32_MAX in Es.
    + (* Ref *)
      destruct Es as (H1 & -> & ->). cbn [app].
      destruct (Z.ltb_spec s (2 ^ 32 - 1)) as [Hlt|Hge].
      * assert (Hs1 : is_u32 (s + 1)) by (unfold is_u32 in *; lia).
        rewrite (Rs (s + 1) w Hs1 Hw), (Rw (s + 1) w Hw) in IH.
        destruct IH as [-> ->]; try lia.
        split; [reflexivity|].
        assert (Nz : ((s + 1) * 2 ^ 32 + w =? 0) = false).
        { apply Z.eqb_neq. unfold is_u32 in *. lia. }
        rewrite Nz.
        destruct (Z.eqb_spec (s + 1) 0), (Z.eqb_spec s 0); cbn [andb];
          try reflexivity; lia.
      * exfalso. unfold is_u32, is_u64 in *. lia.
    + (* Unref *)
      destruct Es as (H1 & H2 & -> & ->).
      assert (Hs1 : is_u32 (s - 1)) by (unfold is_u32 in *; lia).
      rewrite (Rs (s - 1) w Hs1 Hw), (Rw (s - 1) w Hw) in IH.
      destruct IH as [-> ->]; try lia.
      split; [reflexivity|].
      unfold is_u32 in *.
      destruct (Z.eqb_spec s 1), (Z.eqb_spec (s - 1) 0), (Z.eqb_spec s 0),
        (Z.eqb_spec w 0), (Z.eqb_spec ((s - 1) * 2 ^ 32 + w) 0);
        cbn [andb app]; try reflexivity; lia.
    + (* WeakRef *)
      destruct Es as (H1 & -> & ->). cbn [app].
      destruct (Z.ltb_spec w (2 ^ 32 - 1)) as [Hlt|Hge].
      * assert (Hw1 : is_u32 (w + 1)) by (unfold is_u32 in *; lia).
        rewrite (Rs s (w + 1) Hs Hw1), (Rw s (w + 1) Hw1) in IH.
        destruct IH as [-> ->]; try lia.
        split; [reflexivity|].
        unfold is_u32 in *.
        destruct (Z.eqb_spec (s * 2 ^ 32 + (w + 1)) 0), (Z.eqb_spec s 0),
          (Z.eqb_spec w 0); cbn [andb]; try reflexivity; lia.
      * exfalso.
        destruct (Z.ltb_spec s (2 ^ 32 - 1)) as [Hlt|Hge2].
        -- assert (Hs1 : is_u32 (s + 1)) by (unfold is_u32 in *; lia).
           assert (Hz : is_u32 0) by (unfold is_u32; lia).
           rewrite (Rw (s + 1) 0 Hz) in B3.
           pose proof (ref_pair_split r2 B1) as (_ & W2 & _).
           unfold is_u32 in *. lia.
        -- change (GetWeakRefs 0) with 0 in B3.
           pose proof (ref_pair_split r2 B1) as (_ & W2 & _).
           unfold is_u32 in *. lia.
    + (* WeakUnref *)
      destruct Es as (H1 & -> & ->).
      assert (Hw1 : is_u32 (w - 1)) by (unfold is_u32 in *; lia).
      rewrite (Rs s (w - 1) Hs Hw1), (Rw s (w - 1) Hw1) in IH.
      destruct IH as [-> ->]; try lia.
      split; [reflexivity|].
      unfold is_u32 in *.
      destruct (Z.eqb_spec s 0), (Z.eqb_spec w 1), (Z.eqb_spec w 0),
        (Z.eqb_spec (s * 2 ^ 32 + (w - 1)) 0);
        cbn [andb app]; try reflexivity; lia.
Qed.

(** When every check passes, the release build does what the debug build
    does. *)
Lemma run_debug_run (ops : list Op) :
  forall refs refs' ev,
    run_debug ops refs = Some (refs', ev) -> run ops refs = (refs', ev).
Proof.
  induction ops as [|op rest IH]; intros refs refs' ev H.
  - cbn [run_debug] in H. injection H as <- <-. reflexivity.
  - run_debug_cons H r1 ev1 r2 ev2 Es Er.
    unfold step_debug in Es. destruct (CHECK _); [|discriminate].
    injection Es as Es. cbn [run]. rewrite Es, (IH _ _ _ Er). reflexivity.
Qed.

(** *** C1 *)

(** C1, as stated, fails in a release build, where no check stops a
    [Ref()] on an object whose strong count is already zero.  In
    WeakRef, Unref, Ref, Unref, WeakUnref every increment has its
    decrement and the object is alive throughout (the weak ref keeps it),
    yet [Orphaned()] is called twice. *)
Lemma matched_run_orphans_twice :
  let ops := [OpWeakRef; OpUnref; OpRef; OpUnref; OpWeakUnref] in
  matched ops /\
  run ops (DualRefCounted 1) =
    (MakeRefPair 0 0, [Orphaned; Orphaned; Destroyed]) /\
  count_event Orphaned (snd (run ops (DualRefCounted 1))) = 2.
Proof.
  unfold matched. vm_compute. repeat split; reflexivity.
Qed.

(** C1 (amended).  For every finite sequence of Ref, Unref, WeakRef and
    WeakUnref operations on an object created with strong = 1 and weak = 0
    in which every increment is matched by a decrement and no operation
    is a misuse (none fails the check the debug build makes: Ref and
    Unref need strong >= 1, WeakRef needs strong or weak >= 1, WeakUnref
    needs weak >= 1), [Orphaned()] is called exactly once, the destroy
    behavior is invoked exactly once, [Orphaned()] comes first, and the
    pair ends on (0, 0); the release build does the same. *)
Theorem matched_checked_run_orphans_and_destroys_once
  (ops : list Op) (refs' : Z) (ev : list Event) :
  matched ops ->
  run_debug ops (DualRefCounted 1) = Some (refs', ev) ->
  ev = [Orphaned; Destroyed] /\
  count_event Orphaned ev = 1 /\
  count_event Destroyed ev = 1 /\
  orphaned_before_destroyed ev = true /\
  refs' = MakeRefPair 0 0 /\
  run ops (DualRefCounted 1) = (refs', ev).
Proof.
  intros [Hm1 Hm2] H.
  assert (Hr : is_u64 (DualRefCounted 1))
    by (unfold is_u64; vm_compute; split; [discriminate | reflexivity]).
  destruct (run_debug_releases_all ops _ _ _ Hr H) as [E1 E2].
  - change (GetStrongRefs (DualRefCounted 1)) with 1.
    unfold net_strong. lia.
  - change (GetWeakRefs (DualRefCounted 1)) with 0.
    unfold net_weak. lia.
  - change (DualRefCounted 1 =? 0) with false in E2.
    change (GetStrongRefs (DualRefCounted 1) =? 0) with false in E2.
    cbv iota in E2. subst ev.
    repeat split; try reflexivity.
    + exact E1.
    + apply run_debug_run. rewrite H, E1. reflexivity.
Qed.

Lemma matched_checked_run_orphans_and_destroys_once_witness :
  [Orphaned; Destroyed] = [Orphaned; Destroyed] /\
  count_event Orphaned [Orphaned; Destroyed] = 1 /\
  count_event Destroyed [Orphaned; Destroyed] = 1 /\
  orphaned_before_destroyed [Orphaned; Destroyed] = true /\
  0 = MakeRefPair 0 0 /\
  run [OpRef; OpWeakRef; OpUnref; OpUnref; OpWeakUnref] (DualRefCounted 1) =
  (0, [Orphaned; Destroyed]).
Proof.
  apply (matched_checked_run_orphans_and_destroys_once
           [OpRef; OpWeakRef; OpUnref; OpUnref; OpWeakUnref]).
  - unfold matched. vm_compute. split; reflexivity.
  - vm_compute. reflexivity.
Defined.

End RunFacts.

(** ** Slot reservation *)

Module PartySyncFacts.
Import PartySync.

Lemma reserve_spec (allocated : Z) (scan : nat) :
  forall (slot : Z) (n : nat) (slots : list Z),
    reserve scan slot allocated n = Some slots ->
    length slots = n /\
    StronglySorted Z.lt slots /\
    Forall (fun i => slot <= i < slot + Z.of_nat scan /\
                     Z.testbit allocated i = false) slots.
Proof.
  induction scan as [|scan' IH]; intros slot n slots H.
  - destruct n; cbn [reserve] in H; [|discriminate].
    injection H as <-. repeat split; constructor.
  - destruct n as [|n'].
    + cbn [reserve] in H. injection H as <-. repeat split; constructor.
    + cbn [reserve] in H.
      destruct (Z.testbit allocated slot) eqn:Hbit.
      * destruct (IH _ _ _ H) as (Hlen & Hsort & Hall).
        split; [exact Hlen|]. split; [exact Hsort|].
        eapply Forall_impl; [|exact Hall]. cbn beta. intros i [Hi Hf].
        split; [lia | exact Hf].
      * destruct (reserve scan' (slot + 1) allocated n') as [rest|] eqn:Hr;
          [|discriminate].
        cbn [option_map] in H. injection H as <-.
        destruct (IH _ _ _ Hr) as (Hlen & Hsort & Hall).
        split; [cbn [length]; f_equal; exact Hlen|].
        split.
        -- constructor; [exact Hsort|].
           eapply Forall_impl; [|exact Hall]. cbn beta. intros i [Hi _]. lia.
        -- constructor; [split; [lia | exact Hbit]|].
           eapply Forall_impl; [|exact Hall]. cbn beta. intros i [Hi Hf].
           split; [lia | exact Hf].
Qed.

(** *** C8 *)

(** C8.  For every [n >= 1], a call [AddParticipantsAndRef(n, assign_fn)]
    that succeeds passes [assign_fn] a list of [n] slot indices that is
    strictly increasing, each index in [0 .. kMaxParticipants - 1] and free
    in the table before the call. *)
Theorem AddParticipantsAndRef_slots_increasing_and_free
  (A : Type) (kMaxParticipants n : nat) (assign_fn : list Z -> A -> A)
  (st st' : State) (user user' : A) (run : bool) :
  (1 <= n)%nat ->
  AddParticipantsAndRef kMaxParticipants n assign_fn st user
    = Some (run, st', user') ->
  exists slots,
    reserve kMaxParticipants 0 (allocated st) n = Some slots /\
    user' = assign_fn slots user /\
    length slots = n /\
    StronglySorted Z.lt slots /\
    Forall (fun i => 0 <= i <= Z.of_nat kMaxParticipants - 1 /\
                     Z.testbit (allocated st) i = false) slots.
Proof.
  intros Hn H. unfold AddParticipantsAndRef in H.
  destruct (reserve kMaxParticipants 0 (allocated st) n) as [slots|] eqn:Hr;
    [|discriminate].
  injection H as _ _ <-.
  destruct (reserve_spec _ _ _ _ _ Hr) as (Hlen & Hsort & Hall).
  exists slots. repeat split; try assumption.
  eapply Forall_impl; [|exact Hall]. cbn beta. intros i [Hi Hf].
  split; [lia | exact Hf].
Qed.

(** The test [AddAndRemoveTwoParticipants] on a fresh table of 16 slots:
    the callback stores the indices it is given, which are 0 and 1. *)
Lemma AddParticipantsAndRef_slots_increasing_and_free_witness :
  exists slots,
    reserve 16 0 (allocated (PartySync 1)) 2 = Some slots /\
    [0; 1] = (fun idxs (_ : list Z) => idxs) slots [-1; -1] /\
    length slots = 2%nat /\
    StronglySorted Z.lt slots /\
    Forall (fun i => 0 <= i <= Z.of_nat 16 - 1 /\
                     Z.testbit (allocated (PartySync 1)) i = false) slots.
Proof.
  apply (AddParticipantsAndRef_slots_increasing_and_free
           (list Z) 16 2 (fun idxs _ => idxs) (PartySync 1)
           {| locked := true; wakeups := 3; allocated := 3; refs := 2 |}
           [-1; -1] [0; 1] true).
  - lia.
  - reflexivity.
Defined.

End PartySyncFacts.

(** ** Wakers *)

Module PartyFacts.
Import Party.

(** *** C5 *)


Lemma Unref_keeps_generation (p : Party) :
  current_generation (Unref p) = current_generation p.
Proof.
  unfold Unref. destruct (DualRefCounted.Unref (refs p)) as [r ev].
  destruct (has_event DualRefCounted.Orphaned ev); reflexivity.
Qed.



End PartyFacts.

(** ** Call forwarding *)

Module CallSpineFacts.
Import CallSpine.

Section Forwarding.

Context {ServerMetadata Message : Type}.

Let Action : Type := Action ServerMetadata Message.
Let Activity : Type := Activity ServerMetadata Message.
Let Initiator : Type := Initiator ServerMetadata Message.

(** Pushing every message of a stream to the handler. *)
Lemma ForEach_push_messages (msgs : list Message) (ok : StatusFlag) :
  forall a : Activity,
    ForEach_messages msgs ok
      (fun msg =>
         Seq (act (Handler_SpawnPushMessage msg))
           (fun _ => Immediate Success)) a
    = (ok, {| cancelled := cancelled a;
              trace := trace a ++ map Handler_SpawnPushMessage msgs |}).
Proof.
  induction msgs as [|msg rest IH]; intros a.
  - cbn. rewrite app_nil_r. destruct a; reflexivity.
  - cbn [ForEach_messages map]. unfold Seq at 1, act at 1, Immediate at 1.
    unfold Success. rewrite IH. cbn [cancelled trace].
    rewrite <- app_assoc. reflexivity.
Qed.

Lemma read_the_things_runs (call_initiator : Initiator)
  (observer : ServerMetadata -> ServerMetadata) :
  trace (snd (read_the_things call_initiator observer idle)) =
  read_the_things_trace call_initiator observer.
Proof.
  unfold read_the_things, read_the_things_trace, finish.
  unfold Seq, CancelIfFails, TrySeq, PullServerInitialMetadata,
    PullServerTrailingMetadata, Immediate, If, ForEach, MessagesFrom.
  destruct (server_initial_metadata call_initiator) as [[md|]|].
  - unfold act at 1. rewrite ForEach_push_messages.
    destruct (ends_ok (server_messages call_initiator));
      cbn [act idle trace cancelled snd negb app];
      rewrite <- ?app_assoc; reflexivity.
  - reflexivity.
  - reflexivity.
Qed.

Lemma handler_pushes_app (t1 t2 : list Action) :
  handler_pushes (t1 ++ t2) = handler_pushes t1 ++ handler_pushes t2.
Proof. apply filter_app. Qed.

Lemma handler_pushes_messages (msgs : list Message) :
  handler_pushes (map Handler_SpawnPushMessage msgs : list Action)
  = map Handler_SpawnPushMessage msgs.
Proof.
  induction msgs as [|m rest IH]; [reflexivity|].
  cbn [map handler_pushes filter is_handler_push].
  f_equal. exact IH.
Qed.

Lemma no_observer_call_in_messages (msgs : list Message) :
  filter is_observer_call
    (map Handler_SpawnPushMessage msgs : list Action) = [] /\
  filter is_trailing_push
    (map Handler_SpawnPushMessage msgs : list Action) = [] /\
  existsb is_cancel
    (map Handler_SpawnPushMessage msgs : list Action) = false.
Proof.
  induction msgs as [|m rest (IH1 & IH2 & IH3)]; [repeat split|].
  cbn [map filter existsb is_observer_call is_trailing_push is_cancel orb].
  auto.
Qed.

(** *** C6 *)

(** C6.  On the initiator-to-handler direction of [ForwardCall]: when
    the pull of the server initial metadata yields a value, the pushes to
    the handler are that metadata, then every server message in order, then
    the server trailing metadata; when it yields an empty optional (or
    fails) no message is pushed and the trailing metadata is still
    pushed. *)
Theorem ForwardCall_pushes_metadata_then_messages_then_trailing
  (call_handler : Stream Message) (call_initiator : Initiator)
  (observer : ServerMetadata -> ServerMetadata) :
  let pushes :=
    handler_pushes
      (initiator_participant
         (ForwardCall call_handler call_initiator observer)) in
  match server_initial_metadata call_initiator with
  | Value (Some md) =>
      let s := server_messages call_initiator in
      pushes =
      [Handler_SpawnPushServerInitialMetadata md]
      ++ map Handler_SpawnPushMessage (messages s)
      ++ [Handler_SpawnPushServerTrailingMetadata
            (observer (server_trailing_metadata call_initiator
                         (negb (ends_ok s))))]
  | Value None =>
      pushes =
      [Handler_SpawnPushServerTrailingMetadata
         (observer (server_trailing_metadata call_initiator false))]
  | Failed =>
      pushes =
      [Handler_SpawnPushServerTrailingMetadata
         (observer (server_trailing_metadata call_initiator true))]
  end.
Proof.
  cbv zeta. unfold ForwardCall. cbn [initiator_participant].
  rewrite read_the_things_runs. unfold read_the_things_trace, finish.
  destruct (server_initial_metadata call_initiator) as [[md|]|].
  - rewrite !handler_pushes_app, handler_pushes_messages.
    destruct (ends_ok (server_messages call_initiator)); reflexivity.
  - reflexivity.
  - reflexivity.
Qed.

(** *** C7 *)


End Forwarding.

End CallSpineFacts.

(** ** More on the dual ref count *)

Module DualRefCountedMore.
Import DualRefCounted RefPairFacts RefOpFacts UnrefFacts RunFacts.

Lemma u64_of (x y k : Z) : x = y + k * 2 ^ 64 -> is_u64 y -> u64 x = y.
Proof.
  intros -> Hy. unfold u64. rewrite Z.mod_add by lia.
  apply Z.mod_small. exact Hy.
Qed.

(** The events of one operation: [Orphaned] at most once, [Destroyed] at
    most once, in that order. *)
Lemma step_events_shape (op : Op) (refs : Z) :
  let ev := snd (step op refs) in
  ev = [] \/ ev = [Orphaned] \/ ev = [Destroyed] \/
  ev = [Orphaned; Destroyed].
Proof.
  destruct op; cbn [step snd]; auto.
  - unfold Unref, Unref_convert, WeakUnref, fetch_add, fetch_sub. cbn [snd].
    destruct (_ =? 1); destruct (_ =? MakeRefPair 0 1); cbn [app]; auto.
  - unfold WeakUnref, fetch_sub. cbn [snd].
    destruct (_ =? MakeRefPair 0 1); auto.
Qed.

Lemma step_destroyed_zero (op : Op) (refs : Z) :
  In Destroyed (snd (step op refs)) -> fst (step op refs) = 0.
Proof.
  destruct op; cbn [step snd fst].
  - intros [].
  - unfold Unref, Unref_convert, WeakUnref, fetch_add, fetch_sub.
    cbn [snd fst]. rewrite MakeRefPair_0_1.
    destruct (GetStrongRefs refs =? 1);
      destruct (Z.eqb_spec (u64 (refs + MakeRefPair (-1) 1)) 1) as [E|E];
      cbn [app In]; intros H;
      try (rewrite E; reflexivity);
      repeat (destruct H as [H|H]; try discriminate H); contradiction.
  - intros [].
  - unfold WeakUnref, fetch_sub. cbn [snd fst]. rewrite MakeRefPair_0_1.
    destruct (Z.eqb_spec refs 1) as [E|E]; cbn [In]; intros H.
    + rewrite E. reflexivity.
    + contradiction.
Qed.

(** The destroy behavior is only ever invoked by the operation that
    leaves the pair (0, 0): no operation, in either build and on whatever
    pair, destroys an object on which a ref of either kind remains. *)
Theorem destroy_only_on_last_ref (op : Op) (refs : Z) :
  In Destroyed (snd (step op refs)) ->
  fst (step op refs) = MakeRefPair 0 0 /\
  count_event Destroyed (snd (step op refs)) = 1.
Proof.
  intros H. split.
  - apply step_destroyed_zero. exact H.
  - destruct (step_events_shape op refs) as [E|[E|[E|E]]];
      cbv zeta in E; rewrite E in *; try reflexivity.
    + destruct H.
    + destruct H as [H|[]]. discriminate H.
Qed.

Lemma destroy_only_on_last_ref_witness :
  fst (step OpUnref (MakeRefPair 1 0)) = MakeRefPair 0 0 /\
  count_event Destroyed (snd (step OpUnref (MakeRefPair 1 0))) = 1.
Proof.
  apply (destroy_only_on_last_ref OpUnref (MakeRefPair 1 0)).
  vm_compute. right. left. reflexivity.
Defined.

(** On the pair (0, 0) every operation fails the check of the debug
    build. *)
Lemma step_debug_released (op : Op) : step_debug op 0 = None.
Proof. destruct op; reflexivity. Qed.

Lemma run_debug_released (ops : list Op) (res : Z * list Event) :
  run_debug ops 0 = Some res -> ops = [] /\ res = (0, []).
Proof.
  destruct ops as [|op rest]; cbn [run_debug].
  - intros H. injection H as <-. auto.
  - rewrite step_debug_released. discriminate.
Qed.

Lemma count_event_app (e : Event) (l1 l2 : list Event) :
  count_event e (l1 ++ l2) = count_event e l1 + count_event e l2.
Proof.
  unfold count_event. rewrite filter_app, length_app. lia.
Qed.

Lemma count_event_notin (e : Event) (l : list Event) :
  ~ In e l -> count_event e l = 0.
Proof.
  unfold count_event. induction l as [|x l IH]; intros H; [reflexivity|].
  cbn [filter]. destruct (Event_eqb e x) eqn:E.
  - exfalso. apply H. left. destruct e, x; try discriminate E; reflexivity.
  - apply IH. intros Hin. apply H. right. exact Hin.
Qed.

(** In a debug build no sequence of operations invokes the destroy
    behavior twice, and nothing follows its invocation: it is the last
    event of the run, which ends on (0, 0). *)
Theorem checked_run_destroys_at_most_once (ops : list Op) :
  forall (refs refs' : Z) (ev : list Event),
    run_debug ops refs = Some (refs', ev) ->
    count_event Destroyed ev <= 1 /\
    (In Destroyed ev ->
     refs' = MakeRefPair 0 0 /\
     exists before, ev = before ++ [Destroyed] /\ ~ In Destroyed before).
Proof.
  induction ops as [|op rest IH]; intros refs refs' ev H.
  - cbn [run_debug] in H. injection H as <- <-.
    split; [cbn; lia | intros []].
  - run_debug_cons H r1 ev1 r2 ev2 Es Er.
    unfold step_debug in Es. destruct (CHECK _); [|discriminate Es].
    injection Es as Es.
    pose proof (step_events_shape op refs) as Hshape.
    pose proof (step_destroyed_zero op refs) as Hzero.
    rewrite Es in Hshape, Hzero. cbn [fst snd] in Hshape, Hzero.
    cbv zeta in Hshape.
    destruct (in_dec (fun a b : Event =>
                        ltac:(decide equality) : {a = b} + {a <> b})
                Destroyed ev1) as [Hin|Hnin].
    + specialize (Hzero Hin). subst r1.
      destruct (run_debug_released _ _ Er) as [-> E2].
      injection E2 as -> ->. rewrite app_nil_r.
      destruct Hshape as [E|[E|[E|E]]]; subst ev1.
      * destruct Hin.
      * destruct Hin as [Hin|[]]. discriminate Hin.
      * split; [cbn; lia|]. intros _. split; [reflexivity|].
        exists []. split; [reflexivity | intros []].
      * split; [cbn; lia|]. intros _. split; [reflexivity|].
        exists [Orphaned]. split; [reflexivity|].
        intros [Hx|[]]. discriminate Hx.
    + destruct (IH _ _ _ Er) as [Hc Hl].
      rewrite count_event_app, (count_event_notin _ _ Hnin).
      split; [lia|]. intros Hine.
      apply in_app_or in Hine. destruct Hine as [Hine|Hine]; [contradiction|].
      destruct (Hl Hine) as (E0 & before & Eb & Hb).
      split; [exact E0|].
      exists (ev1 ++ before). split.
      * rewrite Eb, app_assoc. reflexivity.
      * intros Hx. apply in_app_or in Hx. tauto.
Qed.

Lemma checked_run_destroys_at_most_once_witness :
  count_event Destroyed [Orphaned; Destroyed] <= 1 /\
  (In Destroyed [Orphaned; Destroyed] ->
   0 = MakeRefPair 0 0 /\
   exists before,
     [Orphaned; Destroyed] = before ++ [Destroyed] /\
     ~ In Destroyed before).
Proof.
  apply (checked_run_destroys_at_most_once
           [OpWeakRef; OpUnref; OpWeakUnref] (MakeRefPair 1 0)).
  vm_compute. reflexivity.
Defined.


(** Taking a strong ref and giving it back, on an object that holds a
    strong ref.  In the release build the pair is left as it was and
    neither [Orphaned()] nor the destroy behavior is called, also when the
    [Ref()] wraps a count round.  In the debug build the same holds when
    both counts are below 2^32 - 1; otherwise the [Unref()] stops at a
    check: at [CHECK_GT(strong_refs, 0u)] when the strong count was
    2^32 - 1, at the [CHECK_GT(weak_refs, 0u)] of its [WeakUnref()] when
    the weak count was. *)
Theorem Unref_after_Ref_restores (refs : Z) :
  is_u64 refs -> 1 <= GetStrongRefs refs ->
  Unref (IncrementRefCount refs) = (refs, []) /\
  run [OpRef; OpUnref] refs = (refs, []) /\
  run_debug [OpRef; OpUnref] refs =
  (if (GetStrongRefs refs <? UINT32_MAX) && (GetWeakRefs refs <? UINT32_MAX)
   then Some (refs, [])
   else None).
Proof.
  intros Hr H1.
  assert (Hrel : Unref (IncrementRefCount refs) = (refs, [])).
  { split_word refs s w Hs Hw.
    unfold Unref, Unref_convert, WeakUnref, IncrementRefCount, fetch_add,
      fetch_sub. cbn [snd].
    rewrite MakeRefPair_1_0, MakeRefPair_minus1_1, MakeRefPair_0_1.
    unfold is_u32 in *.
    destruct (Z_lt_dec s (2 ^ 32 - 1)) as [Hlt|Hge].
    - rewrite (u64_of (s * 2 ^ 32 + w + 2 ^ 32) ((s + 1) * 2 ^ 32 + w) 0)
        by (unfold is_u64; lia).
      rewrite GetStrongRefs_val by (unfold is_u32; lia).
      rewrite (u64_of ((s + 1) * 2 ^ 32 + w + (2 ^ 64 - 2 ^ 32 + 1))
                 (s * 2 ^ 32 + w + 1) 1) by (unfold is_u64; lia).
      rewrite (u64_of (s * 2 ^ 32 + w + 1 - 1) (s * 2 ^ 32 + w) 0)
        by (unfold is_u64; lia).
      destruct (Z.eqb_spec (s + 1) 1); [lia|].
      destruct (Z.eqb_spec (s * 2 ^ 32 + w + 1) 1); [lia|]. reflexivity.
    - rewrite (u64_of (s * 2 ^ 32 + w + 2 ^ 32) (0 * 2 ^ 32 + w) 1)
        by (unfold is_u64; lia).
      rewrite GetStrongRefs_val by (unfold is_u32; lia).
      destruct (Z_lt_dec w (2 ^ 32 - 1)) as [Hwl|Hwg].
      + rewrite (u64_of (0 * 2 ^ 32 + w + (2 ^ 64 - 2 ^ 32 + 1))
                   (s * 2 ^ 32 + w + 1) 0) by (unfold is_u64; lia).
        rewrite (u64_of (s * 2 ^ 32 + w + 1 - 1) (s * 2 ^ 32 + w) 0)
          by (unfold is_u64; lia).
        destruct (Z.eqb_spec (s * 2 ^ 32 + w + 1) 1); [lia|]. reflexivity.
      + rewrite (u64_of (0 * 2 ^ 32 + w + (2 ^ 64 - 2 ^ 32 + 1)) 0 1)
          by (unfold is_u64; lia).
        rewrite (u64_of (0 - 1) (s * 2 ^ 32 + w) (-1))
          by (unfold is_u64; lia).
        reflexivity. }
  split; [exact Hrel|].
  split.
  { cbn [run step]. rewrite Hrel. reflexivity. }
  cbn [run_debug]. unfold step_debug. cbn [step checks].
  split_word refs s w Hs Hw.
  destruct (Z.eqb_spec s 0) as [E0|E0]; [lia|]. cbn [negb CHECK].
  rewrite Hrel.
  rewrite IncrementRefCount_pair by assumption.
  unfold Unref_check, WeakUnref_check.
  destruct (Z.ltb_spec s UINT32_MAX) as [Hlt|Hge]; unfold UINT32_MAX in *.
  - assert (Hs1 : is_u32 (s + 1)) by (unfold is_u32 in *; lia).
    rewrite GetStrongRefs_val by assumption.
    rewrite Unref_convert_pair by (try assumption; lia). cbn [fst].
    destruct (Z.ltb_spec (s + 1) 0); [lia|].
    destruct (Z.ltb_spec 0 (s + 1)); [|lia]. cbn [andb].
    unfold UINT32_MAX.
    destruct (Z.ltb_spec w (2 ^ 32 - 1)) as [Hwl|Hwg].
    + rewrite GetWeakRefs_val by (unfold is_u32 in *; lia).
      destruct (Z.ltb_spec 0 (w + 1)); [|unfold is_u32 in *; lia].
      reflexivity.
    + rewrite GetWeakRefs_val by (unfold is_u32; lia). reflexivity.
  - assert (Hz : is_u32 0) by (unfold is_u32; lia).
    replace w with (0 * 2 ^ 32 + w) at 1 by lia.
    rewrite GetStrongRefs_val by assumption. reflexivity.
Qed.

Lemma Unref_after_Ref_restores_witness :
  Unref (IncrementRefCount (MakeRefPair UINT32_MAX 7))
  = (MakeRefPair UINT32_MAX 7, []) /\
  run [OpRef; OpUnref] (MakeRefPair UINT32_MAX 7)
  = (MakeRefPair UINT32_MAX 7, []) /\
  run_debug [OpRef; OpUnref] (MakeRefPair UINT32_MAX 7) =
  (if (GetStrongRefs (MakeRefPair UINT32_MAX 7) <? UINT32_MAX)
      && (GetWeakRefs (MakeRefPair UINT32_MAX 7) <? UINT32_MAX)
   then Some (MakeRefPair UINT32_MAX 7, [])
   else None).
Proof.
  apply (Unref_after_Ref_restores (MakeRefPair UINT32_MAX 7)).
  - unfold is_u64. vm_compute. split; [discriminate | reflexivity].
  - vm_compute. discriminate.
Defined.

(** Taking a weak ref and giving it back, on an object that holds a ref
    of either kind.  In the release build the pair is left as it was and
    the destroy behavior is not invoked, also when the [WeakRef()] wraps
    the weak count round.  In the debug build the same holds when the weak
    count is below 2^32 - 1; otherwise the [WeakUnref()] stops at
    [CHECK_GT(weak_refs, 0u)]. *)
Theorem WeakUnref_after_WeakRef_restores (refs : Z) :
  is_u64 refs -> refs <> MakeRefPair 0 0 ->
  WeakUnref (IncrementWeakRefCount refs) = (refs, []) /\
  run [OpWeakRef; OpWeakUnref] refs = (refs, []) /\
  run_debug [OpWeakRef; OpWeakUnref] refs =
  (if GetWeakRefs refs <? UINT32_MAX then Some (refs, []) else None).
Proof.
  intros Hr Hnz. change (MakeRefPair 0 0) with 0 in Hnz.
  assert (Hrel : WeakUnref (IncrementWeakRefCount refs) = (refs, [])).
  { unfold WeakUnref, IncrementWeakRefCount, fetch_add, fetch_sub.
    cbn [snd]. rewrite MakeRefPair_0_1. unfold is_u64 in Hr.
    destruct (Z_lt_dec (refs + 1) (2 ^ 64)) as [Hlt|Hge].
    - rewrite (u64_of (refs + 1) (refs + 1) 0) by (unfold is_u64; lia).
      rewrite (u64_of (refs + 1 - 1) refs 0) by (unfold is_u64; lia).
      destruct (Z.eqb_spec (refs + 1) 1); [lia|]. reflexivity.
    - rewrite (u64_of (refs + 1) 0 1) by (unfold is_u64; lia).
      rewrite (u64_of (0 - 1) refs (-1)) by (unfold is_u64; lia).
      reflexivity. }
  split; [exact Hrel|].
  split.
  { cbn [run step]. rewrite Hrel. reflexivity. }
  cbn [run_debug]. unfold step_debug. cbn [step checks].
  split_word refs s w Hs Hw.
  assert (Hc : (if s =? 0 then negb (w =? 0) else true) = true).
  { unfold is_u32 in *.
    destruct (Z.eqb_spec s 0); [|reflexivity].
    destruct (Z.eqb_spec w 0); [lia | reflexivity]. }
  rewrite Hc. cbn [CHECK]. rewrite Hrel.
  rewrite IncrementWeakRefCount_pair by assumption.
  unfold WeakUnref_check.
  destruct (Z.ltb_spec w UINT32_MAX) as [Hlt|Hge]; unfold UINT32_MAX in *.
  - rewrite GetWeakRefs_val by (unfold is_u32 in *; lia).
    destruct (Z.ltb_spec 0 (w + 1)); [|unfold is_u32 in *; lia].
    reflexivity.
  - destruct (Z.ltb_spec s (2 ^ 32 - 1)).
    + rewrite GetWeakRefs_val by (unfold is_u32; lia). reflexivity.
    + reflexivity.
Qed.

Lemma WeakUnref_after_WeakRef_restores_witness :
  WeakUnref (IncrementWeakRefCount (MakeRefPair 0 1)) = (MakeRefPair 0 1, []) /\
  run [OpWeakRef; OpWeakUnref] (MakeRefPair 0 1) = (MakeRefPair 0 1, []) /\
  run_debug [OpWeakRef; OpWeakUnref] (MakeRefPair 0 1) =
  (if GetWeakRefs (MakeRefPair 0 1) <? UINT32_MAX
   then Some (MakeRefPair 0 1, []) else None).
Proof.
  apply (WeakUnref_after_WeakRef_restores (MakeRefPair 0 1)).
  - unfold is_u64. vm_compute. split; [discriminate | reflexivity].
  - vm_compute. discriminate.
Defined.

(** The whole of [Unref()], on an object with a strong ref and a weak
    count below its maximum: the strong count is one less and the weak
    count is what it was; [Orphaned()] is called when the last strong ref
    went, and the object is destroyed only when no weak ref is left
    either, so that weak refs outlive the strong ones. *)
Theorem Unref_drops_one_strong_ref (refs : Z) :
  is_u64 refs -> 1 <= GetStrongRefs refs -> GetWeakRefs refs < UINT32_MAX ->
  Unref refs =
  (MakeRefPair (GetStrongRefs refs - 1) (GetWeakRefs refs),
   if GetStrongRefs refs =? 1
   then if GetWeakRefs refs =? 0 then [Orphaned; Destroyed] else [Orphaned]
   else []).
Proof.
  intros Hr H1 H2. split_word refs s w Hs Hw.
  unfold UINT32_MAX in *.
  assert (Hs' : is_u32 (s - 1)) by (unfold is_u32 in *; lia).
  assert (Hw' : is_u32 (w + 1)) by (unfold is_u32 in *; lia).
  unfold Unref. rewrite Unref_convert_pair by assumption.
  unfold UINT32_MAX. apply Z.ltb_lt in H2. rewrite H2.
  rewrite WeakUnref_pair by (try assumption; unfold is_u32 in *; lia).
  rewrite MakeRefPair_val by assumption.
  unfold is_u32 in *. f_equal; [lia|].
  destruct (Z.eqb_spec s 1), (Z.eqb_spec (s - 1) 0), (Z.eqb_spec w 0),
    (Z.eqb_spec (w + 1) 1); cbn [andb app]; try reflexivity; lia.
Qed.

Lemma Unref_drops_one_strong_ref_witness :
  Unref (MakeRefPair 1 2) =
  (MakeRefPair (GetStrongRefs (MakeRefPair 1 2) - 1)
     (GetWeakRefs (MakeRefPair 1 2)),
   if GetStrongRefs (MakeRefPair 1 2) =? 1
   then if GetWeakRefs (MakeRefPair 1 2) =? 0
        then [Orphaned; Destroyed] else [Orphaned]
   else []).
Proof.
  apply (Unref_drops_one_strong_ref (MakeRefPair 1 2)).
  - unfold is_u64. vm_compute. split; [discriminate | reflexivity].
  - vm_compute. discriminate.
  - vm_compute. reflexivity.
Defined.

(** Misuse below zero.  An [Unref()] without a strong ref, or a
    [WeakUnref()] without a weak ref, stops the debug build; the release
    build goes on silently: the missing strong count wraps to 2^32 - 1,
    and the missing weak ref is borrowed from the strong count. *)
Theorem unref_below_zero (s w : Z) :
  is_u32 s -> is_u32 w -> 1 <= s -> w < UINT32_MAX ->
  step_debug OpUnref (MakeRefPair 0 w) = None /\
  Unref (MakeRefPair 0 w) = (MakeRefPair UINT32_MAX w, []) /\
  step_debug OpWeakUnref (MakeRefPair s 0) = None /\
  WeakUnref (MakeRefPair s 0) = (MakeRefPair (s - 1) UINT32_MAX, []).
Proof.
  intros Hs Hw H1 H2. unfold UINT32_MAX in *.
  assert (H0 : is_u32 0) by (unfold is_u32; lia).
  assert (Hm : is_u32 (2 ^ 32 - 1)) by (unfold is_u32; lia).
  assert (Hs' : is_u32 (s - 1)) by (unfold is_u32 in *; lia).
  rewrite !MakeRefPair_val by assumption.
  unfold is_u32 in *.
  split; [|split; [|split]].
  - unfold step_debug, checks, Unref_check.
    rewrite GetStrongRefs_val by (unfold is_u32; lia). reflexivity.
  - unfold Unref, Unref_convert, WeakUnref, fetch_add, fetch_sub.
    rewrite MakeRefPair_minus1_1, MakeRefPair_0_1.
    rewrite GetStrongRefs_val by (unfold is_u32; lia).
    rewrite (u64_of (0 * 2 ^ 32 + w + (2 ^ 64 - 2 ^ 32 + 1))
               ((2 ^ 32 - 1) * 2 ^ 32 + w + 1) 0) by (unfold is_u64; lia).
    rewrite (u64_of ((2 ^ 32 - 1) * 2 ^ 32 + w + 1 - 1)
               ((2 ^ 32 - 1) * 2 ^ 32 + w) 0) by (unfold is_u64; lia).
    destruct (Z.eqb_spec ((2 ^ 32 - 1) * 2 ^ 32 + w + 1) 1); [lia|].
    reflexivity.
  - unfold step_debug, checks, WeakUnref_check.
    rewrite GetWeakRefs_val by (unfold is_u32; lia). reflexivity.
  - unfold WeakUnref, fetch_sub. rewrite MakeRefPair_0_1.
    rewrite (u64_of (s * 2 ^ 32 + 0 - 1)
               ((s - 1) * 2 ^ 32 + (2 ^ 32 - 1)) 0) by (unfold is_u64; lia).
    destruct (Z.eqb_spec (s * 2 ^ 32 + 0) 1); [lia|]. reflexivity.
Qed.

Lemma unref_below_zero_witness :
  step_debug OpUnref (MakeRefPair 0 5) = None /\
  Unref (MakeRefPair 0 5) = (MakeRefPair UINT32_MAX 5, []) /\
  step_debug OpWeakUnref (MakeRefPair 2 0) = None /\
  WeakUnref (MakeRefPair 2 0) = (MakeRefPair (2 - 1) UINT32_MAX, []).
Proof.
  apply (unref_below_zero 2 5); unfold is_u32, UINT32_MAX; lia.
Defined.


(** The values the loop of [WeakRefIfNonZero] reads are [refs] and then
    the reloaded ones, in order.  It stops on the first of them that is
    (0, 0), without a handle, or, when there is none, on the last of them,
    which its compare-exchange then replaces. *)
Lemma WeakRefIfNonZero_loop_spec (reloads : list Z) :
  forall refs, is_u64 refs -> Forall is_u64 reloads ->
  exists before observed unread,
    refs :: reloads = before ++ observed :: unread /\
    is_u64 observed /\
    Forall (fun v => v <> 0) before /\
    ((observed = 0 /\
      WeakRefIfNonZero_loop reloads refs = (false, observed)) \/
     (observed <> 0 /\ unread = [] /\
      WeakRefIfNonZero_loop reloads refs =
      (true, IncrementWeakRefCount observed))).
Proof.
  assert (Hz : forall r, is_u64 r ->
            (GetStrongRefs r =? 0) && (GetWeakRefs r =? 0) = (r =? 0)).
  { intros r Hr. destruct (ref_pair_split r Hr) as (Hs & Hw & E).
    unfold is_u32 in *.
    destruct (Z.eqb_spec (GetStrongRefs r) 0), (Z.eqb_spec (GetWeakRefs r) 0),
      (Z.eqb_spec r 0); cbn [andb]; try reflexivity; lia. }
  induction reloads as [|v rest IH]; intros refs Hr Hall;
    cbn [WeakRefIfNonZero_loop]; rewrite (Hz refs Hr).
  - exists [], refs, []. split; [reflexivity|]. split; [exact Hr|].
    split; [constructor|].
    destruct (Z.eqb_spec refs 0) as [E|E]; auto.
  - destruct (Z.eqb_spec refs 0) as [E|E].
    + exists [], refs, (v :: rest).
      split; [reflexivity|]. split; [exact Hr|]. split; [constructor|]. auto.
    + apply Forall_cons_iff in Hall. destruct Hall as [Hv Hrest].
      destruct (IH v Hv Hrest)
        as (before & o & unread & Hsplit & Ho & Hbefore & Hres).
      exists (refs :: before), o, unread.
      split; [cbn [app]; f_equal; exact Hsplit|].
      split; [exact Ho|].
      split; [constructor; assumption|]. exact Hres.
Qed.

(** [WeakRefIfNonZero()], under any interference by other threads,
    reads the value of [refs_] on entry and then the values its failed
    compare-exchanges reload, in order; every one but the last read is
    other than (0, 0), and the last read, [observed], is either the first
    that is (0, 0) or the one on which the compare-exchange succeeds.  It
    returns a handle if and only if [observed] is not (0, 0), and has then
    added one to the weak count, leaving the strong count alone, unless the
    weak count was 2^32 - 1: then the weak count wraps to 0 and the carry
    is added to the strong count.  On (0, 0) it returns no handle and
    stores nothing. *)
Theorem WeakRefIfNonZero_succeeds_iff_any_ref
  (reloads : list Z) (refs : Z) :
  is_u64 refs -> Forall is_u64 reloads ->
  let '(handle, refs') := WeakRefIfNonZero reloads refs in
  exists before observed unread,
    refs :: reloads = before ++ observed :: unread /\
    Forall (fun v => v <> MakeRefPair 0 0) before /\
    (observed <> MakeRefPair 0 0 -> unread = []) /\
    (handle = true <->
     0 < GetStrongRefs observed \/ 0 < GetWeakRefs observed) /\
    (handle = true ->
     refs' = snd (fetch_add observed (MakeRefPair 0 1)) /\
     (GetWeakRefs observed < UINT32_MAX ->
      GetWeakRefs refs' = GetWeakRefs observed + 1 /\
      GetStrongRefs refs' = GetStrongRefs observed) /\
     (GetWeakRefs observed = UINT32_MAX ->
      GetWeakRefs refs' = 0 /\
      GetStrongRefs refs' = u32 (GetStrongRefs observed + 1))) /\
    (handle = false -> observed = MakeRefPair 0 0 /\ refs' = observed).
Proof.
  intros Hr Hall. unfold WeakRefIfNonZero.
  destruct (WeakRefIfNonZero_loop_spec reloads refs Hr Hall)
    as (before & o & unread & Hsplit & Ho & Hbefore & Hres).
  change (MakeRefPair 0 0) with 0.
  destruct Hres as [[Ez Hrun]|(Enz & Hun & Hrun)]; rewrite Hrun;
    exists before, o, unread;
    (split; [exact Hsplit|]); (split; [exact Hbefore|]).
  - subst o. split; [intros H; contradiction|].
    split; [split; [discriminate | vm_compute; intros [H|H]; discriminate H]|].
    split; [discriminate|]. auto.
  - destruct (ref_pair_split o Ho) as (Hs & Hw & E).
    set (s := GetStrongRefs o) in *. set (w := GetWeakRefs o) in *.
    split; [intros _; exact Hun|].
    split.
    { split; [intros _ | reflexivity]. unfold is_u32 in *. lia. }
    split; [|discriminate]. intros _.
    split; [reflexivity|].
    clearbody s w. subst o.
    rewrite IncrementWeakRefCount_pair by assumption.
    unfold UINT32_MAX, is_u32 in *.
    destruct (Z.ltb_spec w (2 ^ 32 - 1)) as [Hlt|Hge].
    + assert (Hw1 : is_u32 (w + 1)) by (unfold is_u32; lia).
      destruct (halves_of_pair s (w + 1) Hs Hw1) as [Es Ew].
      rewrite Es, Ew. split; [auto | lia].
    + split; [lia|]. intros _.
      destruct (Z.ltb_spec s (2 ^ 32 - 1)) as [Hsl|Hsg].
      * assert (Hs1 : is_u32 (s + 1)) by (unfold is_u32; lia).
        assert (Hz : is_u32 0) by (unfold is_u32; lia).
        destruct (halves_of_pair (s + 1) 0 Hs1 Hz) as [Es Ew].
        rewrite Es, Ew. split; [reflexivity|].
        symmetry. apply u32_small. exact Hs1.
      * split; [reflexivity|].
        change (GetStrongRefs 0) with 0.
        replace (s + 1) with (0 + 2 ^ 32) by lia.
        symmetry. apply u32_wrap. unfold is_u32. lia.
Qed.

Lemma WeakRefIfNonZero_succeeds_iff_any_ref_witness :
  let '(handle, refs') :=
    WeakRefIfNonZero [MakeRefPair 0 0; MakeRefPair 5 5] (MakeRefPair 0 1) in
  exists before observed unread,
    [MakeRefPair 0 1; MakeRefPair 0 0; MakeRefPair 5 5]
    = before ++ observed :: unread /\
    Forall (fun v => v <> MakeRefPair 0 0) before /\
    (observed <> MakeRefPair 0 0 -> unread = []) /\
    (handle = true <->
     0 < GetStrongRefs observed \/ 0 < GetWeakRefs observed) /\
    (handle = true ->
     refs' = snd (fetch_add observed (MakeRefPair 0 1)) /\
     (GetWeakRefs observed < UINT32_MAX ->
      GetWeakRefs refs' = GetWeakRefs observed + 1 /\
      GetStrongRefs refs' = GetStrongRefs observed) /\
     (GetWeakRefs observed = UINT32_MAX ->
      GetWeakRefs refs' = 0 /\
      GetStrongRefs refs' = u32 (GetStrongRefs observed + 1))) /\
    (handle = false -> observed = MakeRefPair 0 0 /\ refs' = observed).
Proof.
  apply (WeakRefIfNonZero_succeeds_iff_any_ref
           [MakeRefPair 0 0; MakeRefPair 5 5] (MakeRefPair 0 1)).
  - unfold is_u64. vm_compute. split; [discriminate | reflexivity].
  - repeat constructor; vm_compute; discriminate.
Defined.

(** On an orphaned object that is still alive (no strong ref, some weak
    ref) a strong handle can no longer be had, while a further weak handle
    can. *)
Theorem orphaned_object_yields_only_weak_handles (refs : Z) :
  is_u64 refs -> GetStrongRefs refs = 0 ->
  1 <= GetWeakRefs refs < UINT32_MAX ->
  RefIfNonZero [] refs = (false, refs) /\
  WeakRefIfNonZero [] refs = (true, MakeRefPair 0 (GetWeakRefs refs + 1)).
Proof.
  intros Hr H0 H1. unfold RefIfNonZero, WeakRefIfNonZero.
  cbn [RefIfNonZero_loop WeakRefIfNonZero_loop]. rewrite H0.
  cbn [Z.eqb andb].
  destruct (Z.eqb_spec (GetWeakRefs refs) 0) as [E|E]; [lia|].
  split; [reflexivity|]. f_equal.
  split_word refs s w Hs Hw. subst s. unfold UINT32_MAX in *.
  rewrite MakeRefPair_0_1.
  rewrite !MakeRefPair_val by (unfold is_u32 in *; lia).
  apply (u64_of _ _ 0); [lia | unfold is_u64, is_u32 in *; lia].
Qed.

Lemma orphaned_object_yields_only_weak_handles_witness :
  RefIfNonZero [] (MakeRefPair 0 3) = (false, MakeRefPair 0 3) /\
  WeakRefIfNonZero [] (MakeRefPair 0 3) =
  (true, MakeRefPair 0 (GetWeakRefs (MakeRefPair 0 3) + 1)).
Proof.
  apply (orphaned_object_yields_only_weak_handles (MakeRefPair 0 3)).
  - unfold is_u64. vm_compute. split; [discriminate | reflexivity].
  - reflexivity.
  - vm_compute. split; [discriminate | reflexivity].
Defined.


(** Overflow above the maximum is not checked in either build: a
    [Ref()] on a strong count of 2^32 - 1 passes the debug check and leaves
    the strong count 0, with no [Orphaned()]; a [WeakRef()] on a weak count
    of 2^32 - 1 leaves the weak count 0 and one more strong ref. *)
Theorem ref_above_max_wraps (s w : Z) :
  is_u32 s -> is_u32 w -> s < UINT32_MAX ->
  step_debug OpRef (MakeRefPair UINT32_MAX w) = Some (MakeRefPair 0 w, []) /\
  step_debug OpWeakRef (MakeRefPair s UINT32_MAX)
  = Some (MakeRefPair (s + 1) 0, []).
Proof.
  intros Hs Hw Hlt. unfold UINT32_MAX in *.
  assert (H0 : is_u32 0) by (unfold is_u32; lia).
  assert (Hm : is_u32 (2 ^ 32 - 1)) by (unfold is_u32; lia).
  assert (Hs1 : is_u32 (s + 1)) by (unfold is_u32 in *; lia).
  rewrite !MakeRefPair_val by assumption.
  unfold step_debug, checks. cbn [step].
  rewrite !GetStrongRefs_val, GetWeakRefs_val by assumption.
  rewrite IncrementRefCount_pair, IncrementWeakRefCount_pair by assumption.
  unfold UINT32_MAX. rewrite Z.ltb_irrefl.
  apply Z.ltb_lt in Hlt. rewrite Hlt.
  split; [reflexivity|].
  destruct (s =? 0); reflexivity.
Qed.

Lemma ref_above_max_wraps_witness :
  step_debug OpRef (MakeRefPair UINT32_MAX 4) = Some (MakeRefPair 0 4, []) /\
  step_debug OpWeakRef (MakeRefPair 1 UINT32_MAX)
  = Some (MakeRefPair (1 + 1) 0, []).
Proof.
  apply (ref_above_max_wraps 1 4); unfold is_u32, UINT32_MAX; lia.
Defined.

Lemma u64_idem (x y : Z) : u64 (u64 x + y) = u64 (x + y).
Proof. unfold u64. apply Zplus_mod_idemp_l. Qed.

(** The change one operation makes to the word, as an integer. *)
Lemma step_adds (op : Op) (refs : Z) :
  fst (step op refs) =
  u64 (refs + 2 ^ 32 * net_strong [op] + net_weak [op]).
Proof.
  destruct (net_cons op []) as [Ns Nw]. rewrite Ns, Nw.
  change (net_strong []) with 0. change (net_weak []) with 0.
  destruct op; cbn [step fst].
  - unfold IncrementRefCount, fetch_add. cbn [snd].
    rewrite MakeRefPair_1_0. apply (f_equal u64). lia.
  - unfold Unref, Unref_convert, WeakUnref, fetch_add, fetch_sub. cbn [fst].
    rewrite MakeRefPair_minus1_1, MakeRefPair_0_1.
    unfold u64. rewrite Zminus_mod_idemp_l.
    rewrite <- (Z.mod_add (refs + 2 ^ 32 * (-1 + 0) + (0 + 0)) 1 (2 ^ 64))
      by lia.
    apply (f_equal (fun x => x mod 2 ^ 64)). lia.
  - unfold IncrementWeakRefCount, fetch_add. cbn [snd].
    rewrite MakeRefPair_0_1. apply (f_equal u64). lia.
  - unfold WeakUnref, fetch_sub. cbn [fst]. rewrite MakeRefPair_0_1.
    apply (f_equal u64). lia.
Qed.

(** Conservation.  In the release build the pair on which a sequence of
    operations ends depends only on how many there were of each kind, not
    on their order: it is the initial word plus 2^32 for each [Ref], minus
    2^32 for each [Unref], plus one for each [WeakRef] and minus one for
    each [WeakUnref], modulo 2^64. *)
Theorem run_ends_on_the_totals (ops : list Op) :
  forall refs : Z,
    is_u64 refs ->
    fst (run ops refs) =
    u64 (refs
         + 2 ^ 32 * (count OpRef ops - count OpUnref ops)
         + (count OpWeakRef ops - count OpWeakUnref ops)).
Proof.
  fold (net_strong ops) (net_weak ops).
  induction ops as [|op rest IH]; intros refs Hr.
  - cbn [run fst].
    change (net_strong []) with 0. change (net_weak []) with 0.
    replace (refs + 2 ^ 32 * 0 + 0) with refs by lia.
    symmetry. apply u64_small. exact Hr.
  - cbn [run].
    pose proof (step_adds op refs) as Hs.
    destruct (step op refs) as [r1 ev1]. cbn [fst] in Hs.
    assert (H1 : is_u64 r1) by (rewrite Hs; apply u64_range).
    specialize (IH r1 H1).
    destruct (run rest r1) as [r2 ev2]. cbn [fst] in *.
    rewrite IH, Hs.
    destruct (net_cons op rest) as [Ns Nw]. rewrite Ns, Nw.
    destruct (net_cons op []) as [Ns0 Nw0]. rewrite Ns0, Nw0.
    change (net_strong []) with 0. change (net_weak []) with 0.
    rewrite <- Z.add_assoc, u64_idem. apply (f_equal u64). lia.
Qed.

Lemma run_ends_on_the_totals_witness :
  fst (run [OpUnref; OpRef; OpWeakRef] (MakeRefPair 1 0)) =
  u64 (MakeRefPair 1 0
       + 2 ^ 32 * (count OpRef [OpUnref; OpRef; OpWeakRef]
                   - count OpUnref [OpUnref; OpRef; OpWeakRef])
       + (count OpWeakRef [OpUnref; OpRef; OpWeakRef]
          - count OpWeakUnref [OpUnref; OpRef; OpWeakRef])).
Proof.
  apply (run_ends_on_the_totals [OpUnref; OpRef; OpWeakRef] (MakeRefPair 1 0)).
  unfold is_u64. vm_compute. split; [discriminate | reflexivity].
Defined.

End DualRefCountedMore.

(** ** The two directions of a forwarded call *)

Module CallSpineMore.
Import CallSpine.

Section Forwarding.

Context {ServerMetadata Message : Type}.

Let Action : Type := Action ServerMetadata Message.
Let Activity : Type := Activity ServerMetadata Message.
Let Initiator : Type := Initiator ServerMetadata Message.

Lemma ForEach_act_messages (k : Message -> Action) (msgs : list Message)
  (ok : StatusFlag) :
  forall a : Activity,
    ForEach_messages msgs ok
      (fun msg => Seq (act (k msg)) (fun _ => Immediate Success)) a
    = (ok, {| cancelled := cancelled a;
              trace := trace a ++ map k msgs |}).
Proof.
  induction msgs as [|msg rest IH]; intros a.
  - cbn. rewrite app_nil_r. destruct a; reflexivity.
  - cbn [ForEach_messages map]. unfold Seq at 1, act at 1, Immediate at 1.
    unfold Success. rewrite IH. cbn [cancelled trace].
    rewrite <- app_assoc. reflexivity.
Qed.

(** On the handler-to-initiator direction of [ForwardCall] every message
    of the handler is pushed to the initiator, in order, and then
    [SpawnFinishSends()] is called, once and last, whether the handler's
    stream ended normally or not; nothing else is done. *)
Theorem ForwardCall_forwards_client_messages_then_finishes
  (call_handler : Stream Message) (call_initiator : Initiator)
  (observer : ServerMetadata -> ServerMetadata) :
  handler_participant (ForwardCall call_handler call_initiator observer)
  = map Initiator_SpawnPushMessage (messages call_handler)
    ++ [Initiator_SpawnFinishSends].
Proof.
  unfold ForwardCall. cbn [handler_participant].
  unfold read_messages, Seq, ForEach, MessagesFrom.
  rewrite (ForEach_act_messages Initiator_SpawnPushMessage).
  reflexivity.
Qed.

(** [ForwardCall] cancels the initiator exactly when the pull of the
    server initial metadata fails or the server's message stream fails,
    once, and never when the initial metadata is merely absent; the
    trailing metadata then pulled and handed to the observer is the one of
    the cancelled call. *)
Theorem ForwardCall_cancels_initiator_iff_failure
  (call_handler : Stream Message) (call_initiator : Initiator)
  (observer : ServerMetadata -> ServerMetadata) :
  let t :=
    initiator_participant
      (ForwardCall call_handler call_initiator observer) in
  let failed :=
    match server_initial_metadata call_initiator with
    | Failed => true
    | Value None => false
    | Value (Some _) => negb (ends_ok (server_messages call_initiator))
    end in
  filter is_cancel t = (if failed then [Initiator_Cancel] else []) /\
  filter is_observer_call t =
  [Call_on_server_trailing_metadata_from_initiator
     (server_trailing_metadata call_initiator failed)].
Proof.
  cbv zeta. unfold ForwardCall. cbn [initiator_participant].
  rewrite CallSpineFacts.read_the_things_runs.
  unfold read_the_things_trace, finish.
  destruct (server_initial_metadata call_initiator) as [[imd|]|].
  - set (s := server_messages call_initiator).
    assert (N : filter is_cancel
                  (map Handler_SpawnPushMessage (messages s) : list Action)
                = [] /\
                filter is_observer_call
                  (map Handler_SpawnPushMessage (messages s) : list Action)
                = []).
    { induction (messages s) as [|m l [IH1 IH2]]; [split; reflexivity|].
      cbn [map filter is_cancel is_observer_call]. auto. }
    destruct N as [N1 N2].
    rewrite !filter_app, N1, N2.
    destruct (ends_ok s); split; reflexivity.
  - split; reflexivity.
  - split; reflexivity.
Qed.

End Forwarding.

End CallSpineMore.

(** ** Which descriptors the c-ares socket factory closes *)

Module GrpcPolledFdFacts.
Import GrpcPolledFdFactoryPosix.

Section Os.

Variable close : Z -> Z.

Lemma owned_after_calls (cs : list Call) :
  forall (self : Factory) (fd : Z),
    set_In fd (owned_fds_ (fst (calls close cs self))) <->
    set_In fd (owned_fds_ self) \/ In (CallNewGrpcPolledFdLocked fd) cs.
Proof.
  induction cs as [|c rest IH]; intros self fd.
  - cbn. tauto.
  - destruct c as [a|a]; cbn [calls].
    + rewrite IH. unfold NewGrpcPolledFdLocked. cbn [owned_fds_ In].
      rewrite set_add_iff.
      split; intros H.
      * destruct H as [[H|H]|H]; auto. subst a. auto.
      * destruct H as [H|[H|H]]; auto. injection H as ->. auto.
    + destruct (Close close a self) as [r closed1].
      destruct (calls close rest self) as [self' closed2] eqn:E.
      cbn [fst]. specialize (IH self fd). rewrite E in IH. cbn [fst] in IH.
      rewrite IH. cbn [In].
      split; intros H.
      * destruct H; auto.
      * destruct H as [H|[H|H]]; auto. discriminate H.
Qed.

Lemma owned_nodup_after_calls (cs : list Call) :
  forall self : Factory,
    NoDup (owned_fds_ self) ->
    NoDup (owned_fds_ (fst (calls close cs self))).
Proof.
  induction cs as [|c rest IH]; intros self H.
  - exact H.
  - destruct c as [a|a]; cbn [calls].
    + apply IH. unfold NewGrpcPolledFdLocked. cbn [owned_fds_].
      apply set_add_nodup. exact H.
    + destruct (Close close a self) as [r closed1].
      specialize (IH self H).
      destruct (calls close rest self) as [self' closed2]. exact IH.
Qed.

Lemma closed_not_owned (cs : list Call) :
  forall (self : Factory) (fd : Z),
    In fd (snd (calls close cs self)) -> ~ set_In fd (owned_fds_ self).
Proof.
  induction cs as [|c rest IH]; intros self fd H.
  - destruct H.
  - destruct c as [a|a]; cbn [calls] in H.
    + intros Hin. apply (IH _ _ H).
      unfold NewGrpcPolledFdLocked. cbn [owned_fds_].
      apply set_add_intro1. exact Hin.
    + unfold Close in H.
      destruct (set_mem Z.eq_dec a (owned_fds_ self)) eqn:Em.
      * specialize (IH self fd).
        destruct (calls close rest self) as [self' closed2].
        cbn [snd app] in *. auto.
      * specialize (IH self fd).
        destruct (calls close rest self) as [self' closed2].
        cbn [snd app In] in *. destruct H as [H|H]; [|auto].
        subst a. apply set_mem_complete1 in Em. exact Em.
Qed.

(** Over the life of a factory, whatever calls are made on it: a
    descriptor it has been given is not closed by any later call of the
    close override (which closes only descriptors the factory does not
    own), and its destructor closes exactly the descriptors it has been
    given, each of them once, however often it was given. *)
Theorem factory_closes_each_owned_descriptor_once
  (before after : list Call) (fd : Z) :
  let given := fst (calls close (before ++ [CallNewGrpcPolledFdLocked fd])
                      GrpcPolledFdFactoryPosix) in
  let '(self, closed) := calls close after given in
  ~ In fd closed /\
  count_occ Z.eq_dec (destroy self) fd = 1%nat /\
  (forall other,
     In other (destroy self) <->
     In (CallNewGrpcPolledFdLocked other)
        (before ++ [CallNewGrpcPolledFdLocked fd] ++ after)) /\
  NoDup (destroy self).
Proof.
  cbv zeta.
  set (given := fst (calls close (before ++ [CallNewGrpcPolledFdLocked fd])
                       GrpcPolledFdFactoryPosix)).
  assert (Hg : forall x, set_In x (owned_fds_ given) <->
                         In (CallNewGrpcPolledFdLocked x)
                            (before ++ [CallNewGrpcPolledFdLocked fd])).
  { intros x. unfold given. rewrite owned_after_calls.
    cbn [GrpcPolledFdFactoryPosix owned_fds_ empty_set set_In In]. tauto. }
  assert (Hn : NoDup (owned_fds_ given)).
  { unfold given. apply owned_nodup_after_calls. constructor. }
  pose proof (closed_not_owned after given fd) as Hc.
  pose proof (owned_after_calls after given) as Ho.
  pose proof (owned_nodup_after_calls after given Hn) as Hd.
  destruct (calls close after given) as [self closed].
  cbn [fst snd] in *. unfold destroy.
  assert (Hfd : set_In fd (owned_fds_ given)).
  { apply Hg. apply in_or_app. right. left. reflexivity. }
  split; [intros H; exact (Hc H Hfd)|].
  split.
  - apply NoDup_count_occ'; [exact Hd|]. apply Ho. left. exact Hfd.
  - split; [|exact Hd].
    intros other. unfold set_In in Ho. rewrite Ho, Hg.
    rewrite !in_app_iff. cbn [In]. tauto.
Qed.

End Os.

End GrpcPolledFdFacts.

(** ** The length of a traced buffer list *)

Module TracedBufferListFacts.
Import TracedBufferList.

Lemma Size_loop_chain (next : Z -> option Z) (buffers : list Z) :
  forall (fuel : nat) (curr size : Z),
    chain next curr buffers ->
    (length buffers <= fuel)%nat ->
    0 <= size -> size + Z.of_nat (length buffers) <= INT_MAX ->
    Size_loop fuel next curr size = Some (size + Z.of_nat (length buffers)).
Proof.
  induction buffers as [|b rest IH]; intros fuel curr size Hc Hf H0 Hm.
  - inversion Hc; subst.
    destruct fuel; cbn [Size_loop]; cbn; f_equal; lia.
  - inversion Hc as [|c n r Hnz Hnext Hrest]; subst.
    destruct fuel as [|fuel']; [cbn in Hf; lia|].
    cbn [Size_loop].
    destruct (Z.eqb_spec b nullptr) as [E|E]; [contradiction|].
    rewrite Hnext.
    cbn [length] in Hm, Hf.
    destruct (Z.ltb_spec size INT_MAX) as [Hlt|Hge]; [|lia].
    rewrite (IH fuel' n (size + 1) Hrest) by lia.
    f_equal. cbn [length]. lia.
Qed.

(** On a list of [n] traced buffers ending in the null pointer, with
    [n] within the range of [int], [Size()] ends and returns [n]; it
    returns 0 exactly when [head_] is the null pointer. *)
Theorem Size_counts_the_buffers (l : List) (buffers : list Z) (fuel : nat) :
  chain (next_ l) (head_ l) buffers ->
  Z.of_nat (length buffers) <= INT_MAX ->
  (length buffers <= fuel)%nat ->
  Size fuel l = Some (Z.of_nat (length buffers)) /\
  (Size fuel l = Some 0 <-> head_ l = nullptr).
Proof.
  intros Hc Hm Hf. unfold Size.
  rewrite (Size_loop_chain _ _ _ _ 0 Hc Hf) by lia.
  split; [f_equal; lia|].
  destruct buffers as [|b rest].
  - assert (E : head_ l = nullptr) by (inversion Hc; reflexivity).
    cbn. tauto.
  - assert (E : head_ l <> nullptr) by (inversion Hc; subst; assumption).
    cbn [length]. split; intros H.
    + injection H as H. lia.
    + contradiction.
Qed.

Lemma Size_counts_the_buffers_witness :
  let l := {| head_ := 8;
              next_ := fun a => if a =? 8 then Some 16
                                else if a =? 16 then Some 0 else None |} in
  Size 5 l = Some (Z.of_nat (length [8; 16])) /\
  (Size 5 l = Some 0 <-> head_ l = nullptr).
Proof.
  apply (Size_counts_the_buffers
           {| head_ := 8;
              next_ := fun a => if a =? 8 then Some 16
                                else if a =? 16 then Some 0 else None |}
           [8; 16] 5).
  - apply (chain_buffer _ 8 16); [discriminate | reflexivity |].
    apply (chain_buffer _ 16 0); [discriminate | reflexivity |].
    apply chain_end.
  - vm_compute. discriminate.
  - cbn. lia.
Defined.

End TracedBufferListFacts.
